(** * TypingSimulator: the paced text-injection engine

    A shallow embedding of the [TypingSimulator] class (the engine that
    turns a block of text into paced SendKeys commands) and the proofs of
    its queueing, pacing, pause/resume/stop and escaping properties.

    JavaScript strings are modelled by [string] (one [ascii] per code
    unit), integers by [Z], a [Math.random()] result by a rational in [Q].
    The single asynchronous runner ([_ensureRunning] awaiting [_runJob]) is
    modelled by its suspended continuation: every [await] on a
    [_sendBatch] call or on a timer is a suspension point, the code between
    two suspension points runs atomically, and the public methods can be
    called at any suspension point.  An [await] on a promise that is
    already resolved (a [flushBatch] of an empty buffer, a [_runJob] that
    has returned) lets no timer or I/O callback in and is not a suspension
    point.  Listeners are taken to observe only: none calls back into the
    engine from inside [emit].  One stretch is longer here than in the
    code: when [enqueueText] or [resume] starts, in batch mode, a job
    whose text begins with a newline or a tab, the code returns to its
    caller at the flush of the empty buffer and sends the token when the
    caller is done, whereas here the token is sent within the call.  The
    statements that name what has been sent when one of those two calls
    returns leave such texts out; whole runs, payloads and the invariants
    between stretches do not depend on it.

    Beside the engine the file embeds [typeClipboard] (as far as it
    touches the engine) and [simulateTypeCharByChar], the second typing
    loop of the application controller, which consults no flag and so is
    a function of its arguments and of the random source. *)

From Stdlib Require Import Bool List String Ascii ZArith QArith Lia.
From Stdlib Require Import Lqa.
Import ListNotations.
Open Scope string_scope.
Open Scope Z_scope.

(** ** Data model *)

(** [job.meta]: the keys the engine or its callers look at. *)
Record meta := mkMeta {
  meta_batchMode : option bool;   (* undefined = None *)
  meta_wpm : option Z;
  meta_source : option string
}.

(** The default [meta = {}]. *)
Definition empty_meta : meta := mkMeta None None None.

(** [{ text, delayMs, meta }] built by [enqueueText]. *)
Record job := mkJob {
  text : string;
  delayMs : Z;
  meta_of : meta
}.

(** The two control tokens [_runJob] sends for a newline and a tab. *)
Inductive token := ENTER | TAB.

(** One pacing instruction: what a call of [_sendBatch] is asked to
    deliver, a literal batch of the text or a control token. *)
Inductive instr :=
| Lit (batch : string)
| Ctl (tk : token).

(** The waits handed to [setTimeout]: the paced wait after a batch of [n]
    characters with random draw [u] and extra pause [extra], or a fixed
    settle delay. *)
Inductive delay :=
| Paced (wpm : Z) (n : nat) (u : Q) (extra : Z)
| Fixed (ms : Z).

(** The events of the EventEmitter. *)
Inductive event :=
| Queued (j : job)
| Started
| ProgressToken (j : job) (tok : string)              (* { job, token } *)
| ProgressChar (j : job) (index : nat) (ch : ascii)   (* { job, index, char } *)
| JobDone (j : job)
| JobError (j : job)
| PausedEv
| Resumed
| StoppedEv
| Idle.

(** What the engine does to the outside, in order. *)
Inductive obs :=
| Ev (e : event)           (* this.emit(...) *)
| SendBatch (i : instr)    (* this._sendBatch(...): one SendKeys command *)
| Timer (d : delay).       (* setTimeout(r, ...) awaited by the runner *)

(** What follows an [await flushBatch(...)] in the batch loop. *)
Inductive after_flush :=
| ThenToken (tk : token) (rest : string)   (* send the token, sleep, continue *)
| ThenLoop (rest : string)                 (* continue the for loop *)
| ThenReturn.                              (* the flush after the loop *)

(** The suspension points of [_runJob]; [rest] is [str] after index [i]. *)
Inductive kont :=
| KFlushSend (batch : string) (extra : Z) (k : after_flush)
    (* flushBatch: await this._sendBatch(batch) *)
| KFlushWait (k : after_flush)
    (* flushBatch: await the paced timer; then batch = '' *)
| KTokenSend (tk : token) (rest : string)
    (* await this._sendBatch('{ENTER}' / '{TAB}') *)
| KTokenWait (rest : string)
    (* await the 80ms / 40ms timer *)
| KCharSend (i : nat) (ch : ascii) (rest : string)
    (* char-by-char: await this._sendBatch(...) *)
| KCharWait (i : nat) (ch : ascii) (rest : string).
    (* char-by-char: await the paced timer *)

(** The suspended runner: the job being run, the local [wpm] of [_runJob]
    and the point where it waits. *)
Record frame := mkFrame {
  fjob : job;
  fwpm : Z;
  fkont : kont
}.

(** The object's fields, followed by the runtime around it: the suspended
    runner, the number of [Math.random()] draws made, and the trace. *)
Record TypingSimulator := mkSim {
  queue : list job;
  isRunning : bool;
  isPaused : bool;
  currentJob : option job;
  wpm : Z;
  batchMode : bool;
  defaultDelay : Z;
  avgCharsPerWord : Z;
  maxBatchSize : Z;
  minBatchSize : Z;
  runner : option frame;
  draws : nat;
  trace : list obs
}.

Definition set_queue (q : list job) (w : TypingSimulator) : TypingSimulator :=
  mkSim q (isRunning w) (isPaused w) (currentJob w) (wpm w) (batchMode w)
        (defaultDelay w) (avgCharsPerWord w) (maxBatchSize w) (minBatchSize w)
        (runner w) (draws w) (trace w).

Definition set_isRunning (b : bool) (w : TypingSimulator) : TypingSimulator :=
  mkSim (queue w) b (isPaused w) (currentJob w) (wpm w) (batchMode w)
        (defaultDelay w) (avgCharsPerWord w) (maxBatchSize w) (minBatchSize w)
        (runner w) (draws w) (trace w).

Definition set_isPaused (b : bool) (w : TypingSimulator) : TypingSimulator :=
  mkSim (queue w) (isRunning w) b (currentJob w) (wpm w) (batchMode w)
        (defaultDelay w) (avgCharsPerWord w) (maxBatchSize w) (minBatchSize w)
        (runner w) (draws w) (trace w).

Definition set_currentJob (j : option job) (w : TypingSimulator) : TypingSimulator :=
  mkSim (queue w) (isRunning w) (isPaused w) j (wpm w) (batchMode w)
        (defaultDelay w) (avgCharsPerWord w) (maxBatchSize w) (minBatchSize w)
        (runner w) (draws w) (trace w).

Definition set_wpm (n : Z) (w : TypingSimulator) : TypingSimulator :=
  mkSim (queue w) (isRunning w) (isPaused w) (currentJob w) n (batchMode w)
        (defaultDelay w) (avgCharsPerWord w) (maxBatchSize w) (minBatchSize w)
        (runner w) (draws w) (trace w).

Definition set_batchMode (b : bool) (w : TypingSimulator) : TypingSimulator :=
  mkSim (queue w) (isRunning w) (isPaused w) (currentJob w) (wpm w) b
        (defaultDelay w) (avgCharsPerWord w) (maxBatchSize w) (minBatchSize w)
        (runner w) (draws w) (trace w).

Definition set_runner (f : option frame) (w : TypingSimulator) : TypingSimulator :=
  mkSim (queue w) (isRunning w) (isPaused w) (currentJob w) (wpm w) (batchMode w)
        (defaultDelay w) (avgCharsPerWord w) (maxBatchSize w) (minBatchSize w)
        f (draws w) (trace w).

Definition set_draws (n : nat) (w : TypingSimulator) : TypingSimulator :=
  mkSim (queue w) (isRunning w) (isPaused w) (currentJob w) (wpm w) (batchMode w)
        (defaultDelay w) (avgCharsPerWord w) (maxBatchSize w) (minBatchSize w)
        (runner w) n (trace w).

Definition set_trace (t : list obs) (w : TypingSimulator) : TypingSimulator :=
  mkSim (queue w) (isRunning w) (isPaused w) (currentJob w) (wpm w) (batchMode w)
        (defaultDelay w) (avgCharsPerWord w) (maxBatchSize w) (minBatchSize w)
        (runner w) (draws w) t.

(** [this.emit(e)], and more generally appending to the trace. *)
Definition record (o : list obs) (w : TypingSimulator) : TypingSimulator :=
  set_trace (trace w ++ o) w.

Definition emit (e : event) (w : TypingSimulator) : TypingSimulator :=
  record [Ev e] w.

(** ** The constructor *)

Record options := mkOptions {
  opt_wpm : option Z;
  opt_batchMode : option bool;
  opt_defaultDelay : option Z;
  opt_maxBatchSize : option Z;
  opt_minBatchSize : option Z
}.

Definition no_options : options := mkOptions None None None None None.

(** [x || d] on an optional integer: [undefined] and [0] are falsy. *)
Definition or_default (x : option Z) (d : Z) : Z :=
  match x with
  | Some v => if v =? 0 then d else v
  | None => d
  end.

(** [x !== undefined ? x : d]. *)
Definition if_defined {A : Type} (x : option A) (d : A) : A :=
  match x with
  | Some v => v
  | None => d
  end.

Definition new_TypingSimulator (o : options) : TypingSimulator :=
  mkSim [] false false None
        (or_default (opt_wpm o) 60)
        (if_defined (opt_batchMode o) true)
        (if_defined (opt_defaultDelay o) 0)
        5
        (or_default (opt_maxBatchSize o) 12)
        (or_default (opt_minBatchSize o) 3)
        None 0%nat [].

(** ** setWpm and setBatchMode *)

(** A JavaScript number as [setWpm] sees it after [Number(wpm)]: an
    integer, or NaN for an argument that is not a number. *)
Inductive jsnum :=
| Num (z : Z)
| NaN.

(** [Math.max(5, Number(wpm) || this.wpm)]: [0] and NaN are falsy and fall
    back to the current rate. *)
Definition setWpm (n : jsnum) (w : TypingSimulator) : TypingSimulator :=
  let v := match n with
           | Num z => if z =? 0 then wpm w else z
           | NaN => wpm w
           end in
  set_wpm (Z.max 5 v) w.

Definition setBatchMode (enabled : bool) (w : TypingSimulator) : TypingSimulator :=
  set_batchMode enabled w.

(** ** _sendBatch: the SendKeys command *)

(** [s.replace(/c/g, by)] for a one-character pattern. *)
Fixpoint replaceAll (c : ascii) (by_ : string) (s : string) : string :=
  match s with
  | EmptyString => EmptyString
  | String a s' =>
      if Ascii.eqb a c then by_ ++ replaceAll c by_ s'
      else String a (replaceAll c by_ s')
  end.

Definition lbrace : ascii := "{"%char.
Definition rbrace : ascii := "}"%char.
Definition squote : ascii := "'"%char.
Definition dquote : ascii := "034"%char.
Definition backslash : ascii := "\"%char.

(** The string [_sendBatch] receives for an instruction. *)
Definition instr_arg (i : instr) : string :=
  match i with
  | Lit batch => batch
  | Ctl ENTER => "{ENTER}"
  | Ctl TAB => "{TAB}"
  end.

(** The SendKeys payload: the two token strings are left as they are, any
    other batch has its braces escaped by two successive replacements. *)
Definition sendkeys_payload (batch : string) : string :=
  if (batch =? "{ENTER}")%string || (batch =? "{TAB}")%string then batch
  else replaceAll rbrace "{}}" (replaceAll lbrace "{{}" batch).

(** Single quotes doubled for the PowerShell string literal. *)
Definition ps_escape (payload : string) : string :=
  replaceAll squote "''" payload.

Definition psCmd (batch : string) : string :=
  "Add-Type -AssemblyName System.Windows.Forms; [System.Windows.Forms.SendKeys]::SendWait('"
  ++ ps_escape (sendkeys_payload batch) ++ "');".

(** The shell command handed to [exec]; [None] when [batch] is empty
    (the promise resolves without running anything). *)
Definition sendBatch_command (batch : string) : option string :=
  match batch with
  | EmptyString => None
  | _ =>
      Some ("powershell -NoProfile -WindowStyle Hidden -Command "
            ++ String dquote
                 (replaceAll dquote (String backslash (String dquote ""))
                    (psCmd batch)
                  ++ String dquote ""))
  end.

(** What the escaping is written for (the comment in [_sendBatch]: escape
    braces so SendKeys treats them literally): SendKeys reads [{{}] as a
    literal opening brace and [{}}] as a literal closing brace, so each
    brace of the batch is to be wrapped once. *)
Fixpoint sendkeys_literal (batch : string) : string :=
  match batch with
  | EmptyString => EmptyString
  | String a s' =>
      if Ascii.eqb a lbrace then "{{}" ++ sendkeys_literal s'
      else if Ascii.eqb a rbrace then "{}}" ++ sendkeys_literal s'
      else String a (sendkeys_literal s')
  end.

(** ** Timing *)

(** The wait of [flushBatch] read over the rationals (the code computes it
    in double precision): [timePerChar = 60000 / (wpm * avgCharsPerWord)],
    [baseWait = timePerChar * n * 0.85], [jitter = u * baseWait * 0.08],
    and the timer gets [Math.max(0, baseWait + jitter + extraPause)]. *)
Definition timePerChar (wpm avg : Z) : Q :=
  (60000 # 1) / (inject_Z (wpm * avg)).

Definition baseWait (wpm avg : Z) (n : nat) : Q :=
  timePerChar wpm avg * inject_Z (Z.of_nat n) * (85 # 100).

Definition wait_ms (avg : Z) (d : delay) : Q :=
  match d with
  | Paced wpm n u extra =>
      let b := baseWait wpm avg n in
      let t := b + u * b * (8 # 100) + inject_Z extra in
      if Qle_bool 0 t then t else 0
  | Fixed ms => inject_Z ms
  end%Q.

(** ** _runJob *)

Definition newline : ascii := "010"%char.
Definition tab : ascii := "009"%char.

(** [/[\.\!\?\,;:]/.test(ch)] *)
Definition isPunct (ch : ascii) : bool :=
  Ascii.eqb ch "." || Ascii.eqb ch "!" || Ascii.eqb ch "?"
  || Ascii.eqb ch "," || Ascii.eqb ch ";" || Ascii.eqb ch ":".

(** [/[\.\!\?]/.test(ch)] *)
Definition isStop (ch : ascii) : bool :=
  Ascii.eqb ch "." || Ascii.eqb ch "!" || Ascii.eqb ch "?".

Definition str_len (s : string) : Z := Z.of_nat (String.length s).

(** [job.meta.batchMode !== undefined ? job.meta.batchMode : this.batchMode] *)
Definition useBatch (w : TypingSimulator) (j : job) : bool :=
  if_defined (meta_batchMode (meta_of j)) (batchMode w).

(** [job.meta.wpm || this.wpm] *)
Definition job_wpm (w : TypingSimulator) (j : job) : Z :=
  or_default (meta_wpm (meta_of j)) (wpm w).

(** One atomic stretch of [_runJob]: what it did to the outside, the
    number of random draws made so far, and where it now waits ([None]:
    [_runJob] returned). *)
Definition segment : Type := list obs * nat * option kont.

Section Runner.

(** The random source: [rnd n] is the result of the [n]-th call of
    [Math.random()]. *)
Variable rnd : nat -> Q.

(** [Math.random() < 0.12] at draw [n]. *)
Definition randomFlush (n : nat) : bool :=
  negb (Qle_bool (12 # 100) (rnd n)).

(** [await flushBatch(extraPause)] followed by [k]: an empty batch returns
    at once and the caller goes on with [if_empty]. *)
Definition flushBatch (batch : string) (extra : Z) (k : after_flush)
    (n : nat) (if_empty : segment) : segment :=
  match batch with
  | EmptyString => if_empty
  | _ => ([SendBatch (Lit batch)], n, Some (KFlushSend batch extra k))
  end.

(** After the for loop: [if (batch.length > 0) await flushBatch()]. *)
Definition afterLoop (batch : string) (n : nat) : segment :=
  flushBatch batch 0 ThenReturn n ([], n, None).

(** Sending a control token and waiting for it. *)
Definition sendToken (tk : token) (rest : string) (n : nat) : segment :=
  ([SendBatch (Ctl tk)], n, Some (KTokenSend tk rest)).

(** The batch-mode for loop from its head, with [str] the characters not
    yet scanned and [batch] the buffer, up to its next real wait.
    [paused] is [this.isPaused], which cannot change inside the stretch. *)
Fixpoint batchLoop (paused : bool) (maxB minB : Z)
    (str : string) (batch : string) (n : nat) : segment :=
  match str with
  | EmptyString => afterLoop batch n
  | String ch rest =>
      if paused then afterLoop batch n
      else if Ascii.eqb ch newline then
        flushBatch batch 0 (ThenToken ENTER rest) n (sendToken ENTER rest n)
      else if Ascii.eqb ch tab then
        flushBatch batch 0 (ThenToken TAB rest) n (sendToken TAB rest n)
      else
        let batch' := batch ++ String ch "" in
        if isPunct ch || (str_len batch' >=? maxB) then
          flushBatch batch' (if isStop ch then 260 else 0) (ThenLoop rest) n
            (batchLoop paused maxB minB rest "" n)
        else if str_len batch' >=? minB then
          if randomFlush n then
            flushBatch batch' 0 (ThenLoop rest) (S n)
              (batchLoop paused maxB minB rest "" (S n))
          else batchLoop paused maxB minB rest batch' (S n)
        else batchLoop paused maxB minB rest batch' n
  end.

(** The char-by-char for loop from its head at index [i]. *)
Definition charLoop (paused : bool) (i : nat) (str : string) (n : nat) : segment :=
  match str with
  | EmptyString => ([], n, None)
  | String ch rest =>
      if paused then ([], n, None)
      else
        let ins := if Ascii.eqb ch newline then Ctl ENTER
                   else if Ascii.eqb ch tab then Ctl TAB
                   else Lit (String ch "") in
        ([SendBatch ins], n, Some (KCharSend i ch rest))
  end.

(** [_runJob(job)] from its start. *)
Definition runJob (w : TypingSimulator) (j : job) : segment :=
  if useBatch w j
  then batchLoop (isPaused w) (maxBatchSize w) (minBatchSize w) (text j) "" (draws w)
  else charLoop (isPaused w) 0 (text j) (draws w).

(** What follows a finished [flushBatch]. *)
Definition afterFlush (paused : bool) (maxB minB : Z) (k : after_flush)
    (n : nat) : segment :=
  match k with
  | ThenToken tk rest => sendToken tk rest n
  | ThenLoop rest => batchLoop paused maxB minB rest "" n
  | ThenReturn => ([], n, None)
  end.

(** The runner wakes up at [k] and runs to its next wait. *)
Definition resumeKont (w : TypingSimulator) (f : frame) : segment :=
  let n := draws w in
  match fkont f with
  | KFlushSend batch extra k =>
      ([Ev (ProgressToken (fjob f) batch);
        Timer (Paced (fwpm f) (String.length batch) (rnd n) extra)],
       S n, Some (KFlushWait k))
  | KFlushWait k =>
      afterFlush (isPaused w) (maxBatchSize w) (minBatchSize w) k n
  | KTokenSend tk rest =>
      ([Timer (Fixed (match tk with ENTER => 80 | TAB => 40 end))],
       n, Some (KTokenWait rest))
  | KTokenWait rest =>
      batchLoop (isPaused w) (maxBatchSize w) (minBatchSize w) rest "" n
  | KCharSend i ch rest =>
      ([Timer (Paced (fwpm f) 1 (rnd n) 0)], S n, Some (KCharWait i ch rest))
  | KCharWait i ch rest =>
      let '(o, n', k') := charLoop (isPaused w) (S i) rest n in
      (Ev (ProgressChar (fjob f) i ch) :: o, n', k')
  end.

(** ** _ensureRunning *)

(** Leaving the while loop: [this.isRunning = false; this.emit('idle')]. *)
Definition exitLoop (w : TypingSimulator) : TypingSimulator :=
  emit Idle (set_runner None (set_isRunning false w)).

(** The while loop from its head; [q] is [this.queue].  A job whose
    [_runJob] returns without waiting is reported done and the loop goes
    on with the next one. *)
Fixpoint whileLoop (q : list job) (w : TypingSimulator) : TypingSimulator :=
  match q with
  | [] => exitLoop (set_queue [] w)
  | j :: q' =>
      if isPaused w then exitLoop (set_queue q w)
      else
        let w1 := set_currentJob (Some j) (set_queue q' w) in
        let '(o, n, k) := runJob w1 j in
        let w2 := set_draws n (record o w1) in
        match k with
        | Some k' => set_runner (Some (mkFrame j (job_wpm w1 j) k')) w2
        | None => whileLoop q' (set_currentJob None (emit (JobDone j) w2))
        end
  end.

(** [_runJob] returned: [emit('job-done', job); this.currentJob = null],
    then the while loop again. *)
Definition jobFinished (j : job) (w : TypingSimulator) : TypingSimulator :=
  whileLoop (queue w) (set_currentJob None (emit (JobDone j) w)).

Definition ensureRunning (w : TypingSimulator) : TypingSimulator :=
  if isRunning w || isPaused w then w
  else whileLoop (queue w) (emit Started (set_isRunning true w)).

(** The promise the runner awaits resolves. *)
Definition tick (w : TypingSimulator) : TypingSimulator :=
  match runner w with
  | None => w
  | Some f =>
      let '(o, n, k) := resumeKont w f in
      let w1 := set_draws n (record o w) in
      match k with
      | Some k' => set_runner (Some (mkFrame (fjob f) (fwpm f) k')) w1
      | None => jobFinished (fjob f) w1
      end
  end.

(** ** The public methods *)

(** The [text] argument of [enqueueText]. *)
Inductive text_arg :=
| TStr (s : string)
| TNull
| TUndefined.

(** [!text] *)
Definition falsy (t : text_arg) : bool :=
  match t with
  | TStr EmptyString => true
  | TStr _ => false
  | TNull => true
  | TUndefined => true
  end.

Definition text_string (t : text_arg) : string :=
  match t with
  | TStr s => s
  | TNull => "null"
  | TUndefined => "undefined"
  end.

(** [enqueueText(text, delayMs = this.defaultDelay, meta = {})]; the
    result is the returned job ([None] for [null]). *)
Definition enqueueText (t : text_arg) (d : option Z) (m : option meta)
    (w : TypingSimulator) : option job * TypingSimulator :=
  if falsy t then (None, w)
  else
    let j := mkJob (text_string t) (if_defined d (defaultDelay w))
                   (if_defined m empty_meta) in
    (Some j, ensureRunning (emit (Queued j) (set_queue (queue w ++ [j]) w))).

Definition pause (w : TypingSimulator) : TypingSimulator :=
  emit PausedEv (set_isPaused true w).

Definition resume (w : TypingSimulator) : TypingSimulator :=
  if negb (isPaused w) then w
  else ensureRunning (emit Resumed (set_isPaused false w)).

Definition stop (w : TypingSimulator) : TypingSimulator :=
  emit StoppedEv (set_currentJob None (set_isPaused false (set_queue [] w))).

(** ** Schedules *)

(** What can happen at a suspension point: the awaited promise resolves,
    or somebody calls a public method. *)
Inductive input :=
| Tick
| EnqueueText (t : text_arg) (d : option Z) (m : option meta)
| Pause
| Resume
| Stop
| SetWpm (n : jsnum)
| SetBatchMode (b : bool).

Definition step (w : TypingSimulator) (i : input) : TypingSimulator :=
  match i with
  | Tick => tick w
  | EnqueueText t d m => snd (enqueueText t d m w)
  | Pause => pause w
  | Resume => resume w
  | Stop => stop w
  | SetWpm n => setWpm n w
  | SetBatchMode b => setBatchMode b w
  end.

Definition run (sched : list input) (w : TypingSimulator) : TypingSimulator :=
  fold_left step sched w.

(** [n] resolutions in a row, nothing else happening. *)
Definition ticks (n : nat) (w : TypingSimulator) : TypingSimulator :=
  run (repeat Tick n) w.

End Runner.

(** ** Reading a trace *)

(** The instructions handed to [_sendBatch], in order. *)
Fixpoint sends (t : list obs) : list instr :=
  match t with
  | [] => []
  | SendBatch i :: t' => i :: sends t'
  | _ :: t' => sends t'
  end.

(** The literal payloads among instructions. *)
Fixpoint literals (l : list instr) : list string :=
  match l with
  | [] => []
  | Lit s :: l' => s :: literals l'
  | Ctl _ :: l' => literals l'
  end.

Definition token_char (tk : token) : ascii :=
  match tk with
  | ENTER => newline
  | TAB => tab
  end.

(** The piece of the input text an instruction stands for. *)
Definition instr_text (i : instr) : string :=
  match i with
  | Lit s => s
  | Ctl tk => String (token_char tk) ""
  end.

Fixpoint concat_str (l : list string) : string :=
  match l with
  | [] => ""
  | s :: l' => s ++ concat_str l'
  end.

(** The text without its newlines and tabs. *)
Fixpoint strip_controls (s : string) : string :=
  match s with
  | EmptyString => EmptyString
  | String ch s' =>
      if Ascii.eqb ch newline || Ascii.eqb ch tab then strip_controls s'
      else String ch (strip_controls s')
  end.

(** The jobs announced by [queued] and by [job-done], in order. *)
Fixpoint queued_jobs (t : list obs) : list job :=
  match t with
  | [] => []
  | Ev (Queued j) :: t' => j :: queued_jobs t'
  | _ :: t' => queued_jobs t'
  end.

Fixpoint done_jobs (t : list obs) : list job :=
  match t with
  | [] => []
  | Ev (JobDone j) :: t' => j :: done_jobs t'
  | _ :: t' => done_jobs t'
  end.

(** The events of a trace. *)
Fixpoint events (t : list obs) : list event :=
  match t with
  | [] => []
  | Ev e :: t' => e :: events t'
  | _ :: t' => events t'
  end.

(** ** What a suspended job still has to do *)

(** The part of the text not yet handed to [_sendBatch]. *)
Definition pending_after (k : after_flush) : string :=
  match k with
  | ThenToken tk rest => String (token_char tk) rest
  | ThenLoop rest => rest
  | ThenReturn => ""
  end.

Definition pending (k : kont) : string :=
  match k with
  | KFlushSend _ _ af => pending_after af
  | KFlushWait af => pending_after af
  | KTokenSend _ rest => rest
  | KTokenWait rest => rest
  | KCharSend _ _ rest => rest
  | KCharWait _ _ rest => rest
  end.

Definition pending_opt (k : option kont) : string :=
  match k with
  | Some k' => pending k'
  | None => ""
  end.

(** A bound on the number of resolutions a job needs from the loop head
    with [str] left, and from each suspension point. *)
Definition loop_ticks (str : string) : nat := 4 * String.length str + 2.

Definition ticks_after (k : after_flush) : nat :=
  match k with
  | ThenToken _ rest => 2 + loop_ticks rest
  | ThenLoop rest => loop_ticks rest
  | ThenReturn => 0
  end.

Definition ticks_left (k : kont) : nat :=
  match k with
  | KFlushSend _ _ af => 2 + ticks_after af
  | KFlushWait af => 1 + ticks_after af
  | KTokenSend _ rest => 2 + loop_ticks rest
  | KTokenWait rest => 1 + loop_ticks rest
  | KCharSend _ _ rest => 2 + loop_ticks rest
  | KCharWait _ _ rest => 1 + loop_ticks rest
  end.

Definition ticks_left_opt (k : option kont) : nat :=
  match k with
  | Some k' => ticks_left k'
  | None => 0
  end.

(** The control token a flush started by a newline or a tab still owes:
    it is sent after the flush without looking at the pause flag. *)
Definition owed (k : kont) : list instr :=
  match k with
  | KFlushSend _ _ (ThenToken tk _) => [Ctl tk]
  | KFlushWait (ThenToken tk _) => [Ctl tk]
  | _ => []
  end.

Definition owed_opt (k : option kont) : list instr :=
  match k with
  | Some k' => owed k'
  | None => []
  end.

(** The job in the hands of the runner. *)
Definition inflight (w : TypingSimulator) : list job :=
  match runner w with
  | Some f => [fjob f]
  | None => []
  end.

(** A literal payload within the batch size. *)
Definition within (maxB : Z) (i : instr) : Prop :=
  match i with
  | Lit s => str_len s <= maxB
  | Ctl _ => True
  end.

(** The text of the instructions of a trace, and of its literals alone. *)
Definition text_of (t : list obs) : string :=
  concat_str (map instr_text (sends t)).

Definition lits_of (t : list obs) : string :=
  concat_str (literals (sends t)).

Definition is_stop (i : input) : bool :=
  match i with
  | Stop => true
  | _ => false
  end.

(** Resolutions needed to leave a job once the pause flag is set. *)
Definition paused_ticks (k : kont) : nat :=
  match k with
  | KFlushSend _ _ (ThenToken _ _) => 4
  | KFlushWait (ThenToken _ _) => 3
  | KFlushSend _ _ _ => 2
  | KFlushWait _ => 1
  | KTokenSend _ _ => 2
  | KTokenWait _ => 1
  | KCharSend _ _ _ => 2
  | KCharWait _ _ _ => 1
  end.

Definition paused_ticks_opt (k : option kont) : nat :=
  match k with
  | Some k' => paused_ticks k'
  | None => 0
  end.

(** Every literal payload sent so far is within [maxBatchSize]. *)
Definition bounded (w : TypingSimulator) : Prop :=
  Forall (within (maxBatchSize w)) (sends (trace w)).

(** The jobs announced as queued are, in this order, the jobs done, the
    job in flight and the jobs still queued; a suspended runner has
    [isRunning] set. *)
Definition fifo (w : TypingSimulator) : Prop :=
  queued_jobs (trace w) = (done_jobs (trace w) ++ inflight w ++ queue w)%list
  /\ (runner w <> None -> isRunning w = true).

Definition no_stop (sched : list input) : bool :=
  forallb (fun i => negb (is_stop i)) sched.



(** ** Sample inputs *)

(** A random source whose draws never trigger the random flush. *)
Definition half : nat -> Q := fun _ => 1 # 2.

(** [new TypingSimulator()] *)
Definition fresh : TypingSimulator := new_TypingSimulator no_options.

(** The text [Hi.] followed by a newline. *)
Definition hi_text : string := "Hi." ++ String newline "".

(** A text of ten instructions: two batches, ENTER, seven batches. *)
Definition ten_text : string := "a,bc" ++ String newline "d,e,f,g,h,i,j,".

(** [ten_text] enqueued on a new engine, then two resolutions: the
    batches [a,] and [bc] have been handed to [_sendBatch], and the runner
    waits for the second, which the newline flushed. *)
Definition two_sent : TypingSimulator :=
  ticks half 2 (snd (enqueueText half (TStr ten_text) None None fresh)).

Definition two_sent_frame : frame :=
  mkFrame (mkJob ten_text 0 empty_meta) 60
          (KFlushSend "bc" 0 (ThenToken ENTER "d,e,f,g,h,i,j,")).

(** Three jobs with different delays, and some resolutions in between. *)
Definition three_jobs : list input :=
  [EnqueueText (TStr "one") (Some 500) None; Tick;
   EnqueueText (TStr "two") (Some 0) None;
   EnqueueText (TStr "three") (Some 90) None;
   Tick; Tick; Pause; Tick; Resume; Tick; Tick].

(** ** typeClipboard *)

(** [{ source: 'clipboard' }] *)
Definition clipboard_meta : meta := mkMeta None None (Some "clipboard").

(** [typeClipboard(delayMs = this.defaultDelay)] seen from the engine:
    [w0] is the engine when the method is called (the default delay is
    read then), [clip] is what [clipboard.readText()] returns after the
    250ms wait, [w] is the engine at that moment.  Hiding the windows
    touches nothing of the engine. *)
Definition typeClipboard (rnd : nat -> Q) (d : option Z) (w0 : TypingSimulator)
    (clip : string) (w : TypingSimulator) : bool * TypingSimulator :=
  match clip with
  | EmptyString => (false, w)
  | _ =>
      (true,
       snd (enqueueText rnd (TStr clip) (Some (if_defined d (defaultDelay w0)))
              (Some clipboard_meta) w))
  end.

(** ** Reading more of a trace *)

(** The runner loop as the events [started] and [idle] tell it: [Some b]
    when they have alternated so far, [started] first, with [b] telling
    whether the last one was [started]; [None] once they have not. *)
Definition loop_step (s : option bool) (o : obs) : option bool :=
  match o with
  | Ev Started => match s with Some false => Some true | _ => None end
  | Ev Idle => match s with Some true => Some false | _ => None end
  | _ => s
  end.

Definition loop_state (t : list obs) : option bool :=
  fold_left loop_step t (Some false).

(** What holds of the engine between two atomic stretches. *)
Definition engine_ok (w : TypingSimulator) : Prop :=
  (isRunning w = false -> runner w = None)
  /\ (runner w = None -> isRunning w = false)
  /\ (isRunning w = false -> isPaused w = false -> queue w = [])
  /\ (forall j, currentJob w = Some j ->
                exists f, runner w = Some f /\ fjob f = j)
  /\ loop_state (trace w) = Some (isRunning w).

(** The jobs that the [enqueueText] calls of a schedule create, [dd]
    being the default delay. *)
Fixpoint accepted (dd : Z) (sched : list input) : list job :=
  match sched with
  | [] => []
  | EnqueueText t d m :: sched' =>
      if falsy t then accepted dd sched'
      else mkJob (text_string t) (if_defined d dd) (if_defined m empty_meta)
             :: accepted dd sched'
  | _ :: sched' => accepted dd sched'
  end.

(** The instruction the char-by-char loop sends for a character. *)
Definition char_instr (ch : ascii) : instr :=
  if Ascii.eqb ch newline then Ctl ENTER
  else if Ascii.eqb ch tab then Ctl TAB
  else Lit (String ch "").

(** What the char-by-char loop does for the characters [str] from index
    [i] on, the random draws being numbered from [n]: for each character
    the send, the paced wait for one character, the progress event. *)
Fixpoint char_script (rnd : nat -> Q) (j : job) (wpm : Z) (i n : nat)
    (str : string) : list obs :=
  match str with
  | EmptyString => []
  | String ch rest =>
      SendBatch (char_instr ch)
      :: Timer (Paced wpm 1 (rnd n) 0)
      :: Ev (ProgressChar j i ch)
      :: char_script rnd j wpm (S i) (S n) rest
  end.

(** No newline and no tab in [s]. *)
Fixpoint no_controls (s : string) : bool :=
  match s with
  | EmptyString => true
  | String c s' => negb (Ascii.eqb c newline || Ascii.eqb c tab) && no_controls s'
  end.

(** No punctuation character in [s]. *)
Fixpoint no_punct (s : string) : bool :=
  match s with
  | EmptyString => true
  | String c s' => negb (isPunct c) && no_punct s'
  end.

(** No punctuation character in [s] before its last character. *)
Fixpoint punct_only_last (s : string) : bool :=
  match s with
  | EmptyString => true
  | String c s' =>
      match s' with
      | EmptyString => true
      | _ => negb (isPunct c) && punct_only_last s'
      end
  end.

(** A literal payload without newline or tab and with punctuation at its
    end only. *)
Definition well_cut (i : instr) : Prop :=
  match i with
  | Lit s => no_controls s = true /\ punct_only_last s = true
  | Ctl _ => True
  end.

Fixpoint last_char (s : string) : option ascii :=
  match s with
  | EmptyString => None
  | String c s' =>
      match s' with
      | EmptyString => Some c
      | _ => last_char s'
      end
  end.

(** The extra pause that goes with a batch: 260 when it ends with one of
    [. ! ?]. *)
Definition extra_for (batch : string) : Z :=
  match last_char batch with
  | Some c => if isStop c then 260 else 0
  | None => 0
  end.

(** The paced waits of a trace: the number of characters waited for and
    the extra pause. *)
Fixpoint paced_waits (t : list obs) : list (nat * Z) :=
  match t with
  | [] => []
  | Timer (Paced _ n _ e) :: t' => (n, e) :: paced_waits t'
  | _ :: t' => paced_waits t'
  end.

(** The waits that the progress events of a trace account for. *)
Fixpoint reported_waits (t : list obs) : list (nat * Z) :=
  match t with
  | [] => []
  | Ev (ProgressToken _ b) :: t' =>
      (String.length b, extra_for b) :: reported_waits t'
  | Ev (ProgressChar _ _ _) :: t' => (1%nat, 0) :: reported_waits t'
  | _ :: t' => reported_waits t'
  end.

(** The wait under way whose progress event is still to come (the
    char-by-char loop emits it after the wait). *)
Definition awaited_kont (k : kont) : list (nat * Z) :=
  match k with
  | KCharWait _ _ _ => [(1%nat, 0)]
  | _ => []
  end.

Definition awaited_report (w : TypingSimulator) : list (nat * Z) :=
  match runner w with
  | Some f => awaited_kont (fkont f)
  | None => []
  end.

(** The batch a suspended flush has sent but not yet reported, with the
    wait it will get. *)
Definition flush_ok (k : kont) : Prop :=
  match k with
  | KFlushSend b e _ => e = extra_for b
  | _ => True
  end.

(** The words-per-minute of the paced waits of a trace. *)
Fixpoint paced_wpms (t : list obs) : list Z :=
  match t with
  | [] => []
  | Timer (Paced v _ _ _) :: t' => v :: paced_wpms t'
  | _ :: t' => paced_wpms t'
  end.

(** What holds of the pacing between two atomic stretches: the paced
    waits are those the progress events account for, a suspended flush
    carries the extra pause of its batch, and no rate is zero. *)
Definition timing_ok (w : TypingSimulator) : Prop :=
  paced_waits (trace w) = (reported_waits (trace w) ++ awaited_report w)%list
  /\ (forall f, runner w = Some f -> flush_ok (fkont f) /\ fwpm f <> 0)
  /\ wpm w <> 0
  /\ Forall (fun v => v <> 0) (paced_wpms (trace w)).

(** A bound on the resolutions the jobs of a queue need, and on those
    an engine needs for the job in flight and its queue. *)
Fixpoint queue_ticks (q : list job) : nat :=
  match q with
  | [] => 0
  | j :: q' => (loop_ticks (text j) + queue_ticks q')%nat
  end.

Definition work_left (w : TypingSimulator) : nat :=
  (match runner w with
   | Some f => ticks_left (fkont f)
   | None => 0
   end + queue_ticks (queue w))%nat.

(** The single quotes of [s] come in adjacent pairs. *)
Fixpoint quotes_paired (s : string) : bool :=
  match s with
  | EmptyString => true
  | String c s' =>
      if Ascii.eqb c squote then
        match s' with
        | String c' s'' => Ascii.eqb c' squote && quotes_paired s''
        | EmptyString => false
        end
      else quotes_paired s'
  end.

Fixpoint has_char (c : ascii) (s : string) : bool :=
  match s with
  | EmptyString => false
  | String a s' => Ascii.eqb a c || has_char c s'
  end.

(** ** simulateTypeCharByChar (the application controller) *)

(** What [simulateTypeCharByChar] does to the outside: a call of its
    [sendBatch] and a wait between two characters.  [Lit] marks a call
    with the buffer, [Ctl] a call with the string of a token. *)
Inductive type_obs :=
| TypeSend (i : instr)
| TypeWait (ms : Q).

(** [String(text ?? "")] *)
Definition type_str (t : text_arg) : string :=
  match t with
  | TStr s => s
  | TNull => ""
  | TUndefined => ""
  end.

(** The command of the local [sendBatch]: quotes doubled, braces left as
    they are, and no test for an empty batch. *)
Definition type_command (batch : string) : string :=
  "powershell -NoProfile -WindowStyle Hidden -Command "
  ++ String dquote
       (replaceAll dquote (String backslash (String dquote ""))
          ("Add-Type -AssemblyName System.Windows.Forms; [System.Windows.Forms.SendKeys]::SendWait('"
           ++ replaceAll squote "''" batch ++ "');")
        ++ String dquote "").

(** [delayMs + Math.random() * 5], awaited when positive. *)
Definition humanLikeDelay (rnd : nat -> Q) (delayMs : Z) (n : nat) : Q :=
  (inject_Z delayMs + rnd n * (5 # 1))%Q.

Definition type_wait (rnd : nat -> Q) (delayMs : Z) (n : nat) : list type_obs :=
  if Qle_bool (humanLikeDelay rnd delayMs n) 0 then []
  else [TypeWait (humanLikeDelay rnd delayMs n)].

(** The for loop, [str] being the characters not yet read, [batch] the
    buffer and [n] the number of characters read (one draw each). *)
Fixpoint typeLoop (rnd : nat -> Q) (delayMs batchSize : Z)
    (str : string) (batch : string) (n : nat) : list type_obs :=
  match str with
  | EmptyString =>
      if 0 <? str_len batch then [TypeSend (Lit batch)] else []
  | String ch rest =>
      if Ascii.eqb ch newline then
        (TypeSend (Lit batch) :: TypeSend (Ctl ENTER) :: type_wait rnd delayMs n)
        ++ typeLoop rnd delayMs batchSize rest "" (S n)
      else if Ascii.eqb ch tab then
        (TypeSend (Lit batch) :: TypeSend (Ctl TAB) :: type_wait rnd delayMs n)
        ++ typeLoop rnd delayMs batchSize rest "" (S n)
      else
        let batch' := batch ++ String ch "" in
        if str_len batch' >=? batchSize then
          (TypeSend (Lit batch') :: type_wait rnd delayMs n)
          ++ typeLoop rnd delayMs batchSize rest "" (S n)
        else
          type_wait rnd delayMs n
          ++ typeLoop rnd delayMs batchSize rest batch' (S n)
  end.

(** [simulateTypeCharByChar(text, delayMs = 1, batchSize = 10)]: the
    value returned and what was done. *)
Definition simulateTypeCharByChar (rnd : nat -> Q) (t : text_arg)
    (delayMs batchSize : option Z) : bool * list type_obs :=
  (true,
   typeLoop rnd (if_defined delayMs 1) (if_defined batchSize 10) (type_str t) "" 0).

Fixpoint type_sends (t : list type_obs) : list instr :=
  match t with
  | [] => []
  | TypeSend i :: t' => i :: type_sends t'
  | TypeWait _ :: t' => type_sends t'
  end.

Fixpoint type_waits (t : list type_obs) : list Q :=
  match t with
  | [] => []
  | TypeSend _ :: t' => type_waits t'
  | TypeWait d :: t' => d :: type_waits t'
  end.

(** The number of newlines and tabs of a text. *)
Fixpoint count_controls (s : string) : nat :=
  match s with
  | EmptyString => 0
  | String c s' =>
      ((if Ascii.eqb c newline || Ascii.eqb c tab then 1 else 0)
       + count_controls s')%nat
  end.

(** ** Strings and traces *)

Lemma append_nil_r (s : string) : s ++ "" = s.
Proof. induction s as [|a s IH]; simpl; [reflexivity | now rewrite IH]. Qed.

Lemma append_assoc (s t u : string) : (s ++ t) ++ u = s ++ (t ++ u).
Proof. induction s as [|a s IH]; simpl; [reflexivity | now rewrite IH]. Qed.

Lemma length_append (s t : string) :
  String.length (s ++ t) = (String.length s + String.length t)%nat.
Proof. induction s as [|a s IH]; simpl; [reflexivity | now rewrite IH]. Qed.

Lemma append_snoc (s : string) (a : ascii) (t : string) :
  (s ++ String a "") ++ t = s ++ String a t.
Proof. now rewrite append_assoc. Qed.

Lemma strip_controls_app (s t : string) :
  strip_controls (s ++ t) = strip_controls s ++ strip_controls t.
Proof.
  induction s as [|a s IH]; simpl; [reflexivity|].
  destruct (Ascii.eqb a newline || Ascii.eqb a tab); simpl; now rewrite IH.
Qed.

Lemma sends_app (t u : list obs) : sends (t ++ u) = (sends t ++ sends u)%list.
Proof.
  induction t as [|o t IH]; simpl; [reflexivity|].
  destruct o; simpl; now rewrite IH.
Qed.

Lemma literals_app (l m : list instr) :
  literals (l ++ m) = (literals l ++ literals m)%list.
Proof.
  induction l as [|i l IH]; simpl; [reflexivity|].
  destruct i; simpl; now rewrite IH.
Qed.

Lemma concat_str_app (l m : list string) :
  concat_str (l ++ m) = concat_str l ++ concat_str m.
Proof.
  induction l as [|s l IH]; simpl; [reflexivity|].
  now rewrite IH, append_assoc.
Qed.

Lemma text_of_app (t u : list obs) : text_of (t ++ u) = text_of t ++ text_of u.
Proof. unfold text_of. now rewrite sends_app, map_app, concat_str_app. Qed.

Lemma lits_of_app (t u : list obs) : lits_of (t ++ u) = lits_of t ++ lits_of u.
Proof. unfold lits_of. now rewrite sends_app, literals_app, concat_str_app. Qed.

Lemma queued_jobs_app (t u : list obs) :
  queued_jobs (t ++ u) = (queued_jobs t ++ queued_jobs u)%list.
Proof.
  induction t as [|o t IH]; simpl; [reflexivity|].
  destruct o as [e| |]; try destruct e; simpl; now rewrite IH.
Qed.

Lemma done_jobs_app (t u : list obs) :
  done_jobs (t ++ u) = (done_jobs t ++ done_jobs u)%list.
Proof.
  induction t as [|o t IH]; simpl; [reflexivity|].
  destruct o as [e| |]; try destruct e; simpl; now rewrite IH.
Qed.

Lemma events_app (t u : list obs) : events (t ++ u) = (events t ++ events u)%list.
Proof.
  induction t as [|o t IH]; simpl; [reflexivity|].
  destruct o; simpl; now rewrite IH.
Qed.

(** ** The stretches of _runJob *)

Section Segments.

Variable rnd : nat -> Q.

Lemma snoc_not_empty (s : string) (a : ascii) : s ++ String a "" <> "".
Proof. destruct s; discriminate. Qed.

(** A buffer that has just received a character is really flushed. *)
Lemma flushBatch_snoc (batch : string) (a : ascii) extra k n e :
  flushBatch (batch ++ String a "") extra k n e
  = ([SendBatch (Lit (batch ++ String a ""))], n,
     Some (KFlushSend (batch ++ String a "") extra k)).
Proof. destruct batch; reflexivity. Qed.

Lemma batchLoop_paused maxB minB str batch n :
  batchLoop rnd true maxB minB str batch n = afterLoop batch n.
Proof. destruct str; reflexivity. Qed.

Lemma afterLoop_empty n : afterLoop "" n = ([], n, None).
Proof. reflexivity. Qed.

Ltac loop_cases a E1 E2 :=
  cbn [batchLoop];
  destruct (Ascii.eqb a newline) eqn:E1;
  [ apply Ascii.eqb_eq in E1; subst a
  | destruct (Ascii.eqb a tab) eqn:E2;
    [ apply Ascii.eqb_eq in E2; subst a
    | rewrite ?flushBatch_snoc ] ].

Ltac flush_cases batch H :=
  unfold afterLoop, flushBatch, sendToken in H;
  destruct batch; inversion H; subst; clear H.

(** Unpaused, a stretch of the batch loop hands over, in order, exactly
    the part of [batch ++ str] that it does not leave pending. *)
Lemma batchLoop_text maxB minB str : forall batch n o n' k,
  batchLoop rnd false maxB minB str batch n = (o, n', k) ->
  text_of o ++ pending_opt k = batch ++ str
  /\ lits_of o ++ strip_controls (pending_opt k) = batch ++ strip_controls str.
Proof.
  induction str as [|a rest IH]; intros batch n o n' k H.
  - cbn [batchLoop] in H. flush_cases batch H; cbn; now rewrite ?append_nil_r.
  - revert H. loop_cases a E1 E2; intros H.
    + flush_cases batch H; cbn; now rewrite ?append_nil_r.
    + flush_cases batch H; cbn; now rewrite ?append_nil_r.
    + assert (Hs : strip_controls (String a rest) = String a (strip_controls rest))
        by (cbn; now rewrite E1, E2).
      rewrite Hs.
      destruct (isPunct a || (str_len (batch ++ String a "") >=? maxB)).
      { inversion H; subst; clear H. cbn.
        now rewrite !append_nil_r, !append_snoc. }
      destruct (str_len (batch ++ String a "") >=? minB).
      * destruct (randomFlush rnd n).
        { inversion H; subst; clear H. cbn.
          now rewrite !append_nil_r, !append_snoc. }
        apply IH in H. now rewrite !append_snoc in H.
      * apply IH in H. now rewrite !append_snoc in H.
Qed.

(** The number of resolutions left after a stretch of the batch loop. *)
Lemma batchLoop_ticks paused maxB minB str : forall batch n o n' k,
  batchLoop rnd paused maxB minB str batch n = (o, n', k) ->
  (ticks_left_opt k <= loop_ticks str)%nat.
Proof.
  destruct paused.
  { intros batch n o n' k. rewrite batchLoop_paused. intros H.
    flush_cases batch H; cbn; unfold loop_ticks; lia. }
  induction str as [|a rest IH]; intros batch n o n' k H.
  - cbn [batchLoop] in H. flush_cases batch H; cbn; lia.
  - assert (Hl : (loop_ticks (String a rest) = 4 + loop_ticks rest)%nat)
      by (unfold loop_ticks; cbn [String.length]; lia).
    rewrite Hl. revert H. loop_cases a E1 E2; intros H.
    + flush_cases batch H; cbn [ticks_left_opt ticks_left ticks_after]; lia.
    + flush_cases batch H; cbn [ticks_left_opt ticks_left ticks_after]; lia.
    + destruct (isPunct a || (str_len (batch ++ String a "") >=? maxB)).
      { inversion H; subst; cbn [ticks_left_opt ticks_left ticks_after]; lia. }
      destruct (str_len (batch ++ String a "") >=? minB).
      * destruct (randomFlush rnd n).
        { inversion H; subst; cbn [ticks_left_opt ticks_left ticks_after]; lia. }
        apply IH in H. lia.
      * apply IH in H. lia.
Qed.

(** A stretch of the batch loop sends at most one instruction, emits no
    event and sets no timer. *)
Lemma batchLoop_sends paused maxB minB str : forall batch n o n' k,
  batchLoop rnd paused maxB minB str batch n = (o, n', k) ->
  o = map SendBatch (sends o).
Proof.
  destruct paused.
  { intros batch n o n' k. rewrite batchLoop_paused. intros H.
    flush_cases batch H; reflexivity. }
  induction str as [|a rest IH]; intros batch n o n' k H.
  - cbn [batchLoop] in H. flush_cases batch H; reflexivity.
  - revert H. loop_cases a E1 E2; intros H.
    + flush_cases batch H; reflexivity.
    + flush_cases batch H; reflexivity.
    + destruct (isPunct a || (str_len (batch ++ String a "") >=? maxB)).
      { inversion H; subst; reflexivity. }
      destruct (str_len (batch ++ String a "") >=? minB).
      * destruct (randomFlush rnd n).
        { inversion H; subst; reflexivity. }
        now apply IH in H.
      * now apply IH in H.
Qed.

(** The literal payload of a stretch of the batch loop stays within
    [maxB] when the buffer it starts from is below it. *)
Lemma batchLoop_within paused maxB minB str : forall batch n o n' k,
  str_len batch < maxB ->
  batchLoop rnd paused maxB minB str batch n = (o, n', k) ->
  Forall (within maxB) (sends o).
Proof.
  destruct paused.
  { intros batch n o n' k Hb. rewrite batchLoop_paused. intros H.
    flush_cases batch H; cbn [sends]; repeat constructor; unfold within; lia. }
  induction str as [|a rest IH]; intros batch n o n' k Hb H.
  - cbn [batchLoop] in H. flush_cases batch H; cbn [sends]; repeat constructor; unfold within; lia.
  - revert H. loop_cases a E1 E2; intros H.
    + flush_cases batch H; cbn [sends]; repeat constructor; unfold within; lia.
    + flush_cases batch H; cbn [sends]; repeat constructor; unfold within; lia.
    + assert (Hlen : str_len (batch ++ String a "") = str_len batch + 1)
        by (unfold str_len; rewrite length_append; cbn; lia).
      destruct (Z.geb_spec (str_len (batch ++ String a "")) maxB) as [Hge|Hlt].
      { rewrite orb_true_r in H. inversion H; subst; cbn [sends].
        repeat constructor; unfold within; lia. }
      rewrite orb_false_r in H.
      destruct (isPunct a).
      { inversion H; subst; cbn [sends]. repeat constructor; unfold within; lia. }
      destruct (str_len (batch ++ String a "") >=? minB).
      * destruct (randomFlush rnd n).
        { inversion H; subst; cbn [sends]. repeat constructor; unfold within; lia. }
        eapply IH; [|exact H]. lia.
      * eapply IH; [|exact H]. lia.
Qed.

End Segments.

(** ** Waking the runner *)

Section Wake.

Variable rnd : nat -> Q.

Lemma token_char_stripped tk rest :
  strip_controls (String (token_char tk) rest) = strip_controls rest.
Proof. destruct tk; reflexivity. Qed.

Lemma charLoop_text i str n o n' k :
  charLoop false i str n = (o, n', k) ->
  text_of o ++ pending_opt k = str
  /\ lits_of o ++ strip_controls (pending_opt k) = strip_controls str
  /\ (ticks_left_opt k <= loop_ticks str)%nat.
Proof.
  destruct str as [|a rest]; cbn [charLoop]; intros H; inversion H; subst; clear H.
  - repeat split. cbn. lia.
  - assert (Hl : (loop_ticks (String a rest) = 4 + loop_ticks rest)%nat)
      by (unfold loop_ticks; cbn [String.length]; lia).
    rewrite Hl. cbn [strip_controls].
    destruct (Ascii.eqb a newline) eqn:E1.
    { apply Ascii.eqb_eq in E1; subst a. cbn. repeat split; lia. }
    destruct (Ascii.eqb a tab) eqn:E2.
    { apply Ascii.eqb_eq in E2; subst a. cbn. repeat split; lia. }
    cbn. repeat split; lia.
Qed.

(** Unpaused, one resolution hands over the next piece of the pending
    text and brings the job closer to its end. *)
Lemma resumeKont_text w f o n k :
  isPaused w = false ->
  resumeKont rnd w f = (o, n, k) ->
  text_of o ++ pending_opt k = pending (fkont f)
  /\ lits_of o ++ strip_controls (pending_opt k) = strip_controls (pending (fkont f))
  /\ (ticks_left_opt k < ticks_left (fkont f))%nat.
Proof.
  intros Hp. unfold resumeKont. rewrite Hp.
  destruct (fkont f) as [batch extra af|af|tk rest|rest|i ch rest|i ch rest];
    cbn [pending ticks_left].
  - intros H; inversion H; subst. cbn. repeat split; lia.
  - destruct af as [tk rest|rest|]; cbn [afterFlush pending_after ticks_after].
    + unfold sendToken. intros H; inversion H; subst.
      rewrite token_char_stripped. cbn. repeat split; lia.
    + intros H. pose proof (batchLoop_text _ _ _ _ _ _ _ _ _ H) as [H1 H2].
      apply batchLoop_ticks in H. cbn in H1, H2. repeat split; auto; lia.
    + intros H; inversion H; subst. cbn. repeat split; lia.
  - intros H; inversion H; subst. cbn. repeat split; lia.
  - intros H. pose proof (batchLoop_text _ _ _ _ _ _ _ _ _ H) as [H1 H2].
    apply batchLoop_ticks in H. cbn in H1, H2. repeat split; auto; lia.
  - intros H; inversion H; subst. cbn. repeat split; lia.
  - destruct (charLoop false (S i) rest (draws w)) as [[o1 n1] k1] eqn:E.
    intros H; inversion H; subst.
    apply charLoop_text in E. destruct E as (H1 & H2 & H3).
    repeat split; auto; lia.
Qed.

(** Paused, the runner sends nothing more than the token a flush owes,
    and leaves the job within four resolutions. *)
Lemma resumeKont_paused w f o n k :
  isPaused w = true ->
  resumeKont rnd w f = (o, n, k) ->
  (sends o ++ owed_opt k)%list = owed (fkont f)
  /\ (paused_ticks_opt k < paused_ticks (fkont f))%nat.
Proof.
  intros Hp. unfold resumeKont. rewrite Hp.
  destruct (fkont f) as [batch extra af|af|tk rest|rest|i ch rest|i ch rest].
  - intros H; inversion H; subst. destruct af; cbn; split; auto; lia.
  - destruct af as [tk rest|rest|]; cbn [afterFlush].
    + unfold sendToken. intros H; inversion H; subst. cbn. split; auto; lia.
    + rewrite batchLoop_paused, afterLoop_empty.
      intros H; inversion H; subst. cbn. split; auto; lia.
    + intros H; inversion H; subst. cbn. split; auto; lia.
  - intros H; inversion H; subst. cbn. split; auto; lia.
  - rewrite batchLoop_paused, afterLoop_empty.
    intros H; inversion H; subst. cbn. split; auto; lia.
  - intros H; inversion H; subst. cbn. split; auto; lia.
  - assert (E : charLoop true (S i) rest (draws w) = ([], draws w, None))
      by (destruct rest; reflexivity).
    rewrite E. intros H; inversion H; subst. cbn. split; auto; lia.
Qed.

Lemma ticks_S n w : ticks rnd (S n) w = ticks rnd n (tick rnd w).
Proof. reflexivity. Qed.

Lemma ticks_settled n w : runner w = None -> ticks rnd n w = w.
Proof.
  intros H. induction n as [|n IH]; [reflexivity|].
  rewrite ticks_S. unfold tick. rewrite H. exact IH.
Qed.

Lemma tick_eq w f o n k :
  runner w = Some f ->
  resumeKont rnd w f = (o, n, k) ->
  tick rnd w
  = match k with
    | Some k' => set_runner (Some (mkFrame (fjob f) (fwpm f) k'))
                   (set_draws n (record o w))
    | None => jobFinished rnd (fjob f) (set_draws n (record o w))
    end.
Proof. intros Hr E. unfold tick. now rewrite Hr, E. Qed.

Lemma ticks_left_pos k : (1 <= ticks_left k)%nat.
Proof. destruct k; cbn; lia. Qed.

Lemma paused_ticks_pos k : (1 <= paused_ticks k)%nat.
Proof. destruct k as [? ? []|[]| | | |]; cbn; lia. Qed.

Lemma paused_ticks_max k : (paused_ticks k <= 4)%nat.
Proof. destruct k as [? ? []|[]| | | |]; cbn; lia. Qed.

Lemma whileLoop_paused q w :
  isPaused w = true -> whileLoop rnd q w = exitLoop (set_queue q w).
Proof. intros H. destruct q; cbn [whileLoop]; [reflexivity | now rewrite H]. Qed.

(** With nothing queued and no pause, the job in flight runs to its end:
    the instructions sent spell the pending text, then come [job-done]
    and [idle]. *)
Lemma quiet_run m : forall w f,
  runner w = Some f -> isPaused w = false -> queue w = [] ->
  (ticks_left (fkont f) <= m)%nat ->
  exists T,
    trace (ticks rnd m w)
      = (trace w ++ T ++ [Ev (JobDone (fjob f)); Ev Idle])%list
    /\ text_of T = pending (fkont f)
    /\ lits_of T = strip_controls (pending (fkont f))
    /\ isRunning (ticks rnd m w) = false
    /\ runner (ticks rnd m w) = None.
Proof.
  induction m as [|m IH]; intros w f Hr Hp Hq Hm.
  { pose proof (ticks_left_pos (fkont f)). lia. }
  rewrite ticks_S.
  destruct (resumeKont rnd w f) as [[o n] k] eqn:E.
  rewrite (tick_eq _ _ _ _ _ Hr E).
  destruct (resumeKont_text _ _ _ _ _ Hp E) as (H1 & H2 & H3).
  destruct k as [k'|].
  - edestruct (IH (set_runner (Some (mkFrame (fjob f) (fwpm f) k'))
                     (set_draws n (record o w)))) as (T & Ht & Htx & Hl & Hrun & Hnone);
      [reflexivity | exact Hp | exact Hq | cbn in *; lia |].
    exists (o ++ T)%list. cbn in Ht, Htx, Hl.
    rewrite Ht, text_of_app, lits_of_app, Htx, Hl.
    repeat split; auto. now rewrite <- !app_assoc.
  - unfold jobFinished. cbn [queue set_draws record set_trace]. rewrite Hq.
    cbn [whileLoop]. rewrite ticks_settled by reflexivity.
    exists o. cbn in H1, H2 |- *. rewrite append_nil_r in H1, H2.
    repeat split; auto. now rewrite <- !app_assoc.
Qed.

(** With the pause flag set, the job in flight is left: nothing is sent
    but the token a flush owes, then come [job-done] and [idle], and the
    queue is as it was. *)
Lemma paused_run m : forall w f,
  runner w = Some f -> isPaused w = true ->
  (paused_ticks (fkont f) <= m)%nat ->
  exists T,
    trace (ticks rnd m w)
      = (trace w ++ T ++ [Ev (JobDone (fjob f)); Ev Idle])%list
    /\ sends T = owed (fkont f)
    /\ queue (ticks rnd m w) = queue w
    /\ isRunning (ticks rnd m w) = false
    /\ runner (ticks rnd m w) = None.
Proof.
  induction m as [|m IH]; intros w f Hr Hp Hm.
  { pose proof (paused_ticks_pos (fkont f)). lia. }
  rewrite ticks_S.
  destruct (resumeKont rnd w f) as [[o n] k] eqn:E.
  rewrite (tick_eq _ _ _ _ _ Hr E).
  destruct (resumeKont_paused _ _ _ _ _ Hp E) as (H1 & H2).
  destruct k as [k'|].
  - edestruct (IH (set_runner (Some (mkFrame (fjob f) (fwpm f) k'))
                     (set_draws n (record o w)))) as (T & Ht & Hs & Hq & Hrun & Hnone);
      [reflexivity | exact Hp | cbn in *; lia |].
    exists (o ++ T)%list. cbn in Ht, Hs, Hq.
    rewrite Ht, sends_app, Hs. cbn in H1.
    repeat split; auto. now rewrite <- !app_assoc.
  - unfold jobFinished. rewrite whileLoop_paused by exact Hp.
    rewrite ticks_settled by reflexivity.
    exists o. cbn in H1 |- *. rewrite app_nil_r in H1.
    repeat split; auto. now rewrite <- !app_assoc.
Qed.

End Wake.

(** ** The while loop of _ensureRunning *)

Section Loop.

Variable rnd : nat -> Q.

(** Reasoning along the iterations of the while loop: it exits (queue
    empty or pause flag set), or the job taken from the head waits, or it
    returned at once and the loop goes on. *)
Lemma whileLoop_cases (R : list job -> TypingSimulator -> TypingSimulator -> Prop) :
  (forall q w, q = [] \/ isPaused w = true -> R q w (exitLoop (set_queue q w))) ->
  (forall j q' w o n k',
      isPaused w = false ->
      runJob rnd (set_currentJob (Some j) (set_queue q' w)) j = (o, n, Some k') ->
      R (j :: q') w
        (set_runner
           (Some (mkFrame j (job_wpm (set_currentJob (Some j) (set_queue q' w)) j) k'))
           (set_draws n (record o (set_currentJob (Some j) (set_queue q' w)))))) ->
  (forall j q' w o n w2,
      isPaused w = false ->
      runJob rnd (set_currentJob (Some j) (set_queue q' w)) j = (o, n, None) ->
      w2 = set_currentJob None
             (emit (JobDone j)
                (set_draws n (record o (set_currentJob (Some j) (set_queue q' w))))) ->
      R q' w2 (whileLoop rnd q' w2) ->
      R (j :: q') w (whileLoop rnd q' w2)) ->
  forall q w, R q w (whileLoop rnd q w).
Proof.
  intros Hexit Hwait Hnext.
  induction q as [|j q' IH]; intros w.
  - cbn [whileLoop]. apply Hexit. now left.
  - cbn [whileLoop]. destruct (isPaused w) eqn:Hp.
    + apply Hexit. now right.
    + destruct (runJob rnd (set_currentJob (Some j) (set_queue q' w)) j)
        as [[o n] [k'|]] eqn:E.
      * now apply Hwait.
      * eapply Hnext; eauto.
Qed.

Lemma sends_map_SendBatch (l : list instr) : sends (map SendBatch l) = l.
Proof. induction l as [|i l IH]; cbn; [reflexivity | now rewrite IH]. Qed.

Lemma queued_jobs_sends (l : list instr) : queued_jobs (map SendBatch l) = [].
Proof. induction l as [|i l IH]; cbn; auto. Qed.

Lemma done_jobs_sends (l : list instr) : done_jobs (map SendBatch l) = [].
Proof. induction l as [|i l IH]; cbn; auto. Qed.

Lemma charLoop_sends paused i str n o n' k :
  charLoop paused i str n = (o, n', k) -> o = map SendBatch (sends o).
Proof.
  destruct str, paused; cbn [charLoop]; intros H; inversion H; reflexivity.
Qed.

Lemma charLoop_within paused maxB i str n o n' k :
  1 <= maxB ->
  charLoop paused i str n = (o, n', k) -> Forall (within maxB) (sends o).
Proof.
  intros Hm.
  destruct str as [|a rest], paused; cbn [charLoop]; intros H; inversion H;
    subst; cbn [sends]; repeat constructor.
  destruct (Ascii.eqb a newline); [exact I|].
  destruct (Ascii.eqb a tab); [exact I|].
  unfold within, str_len. cbn. lia.
Qed.

(** [_runJob] only sends before its first wait. *)
Lemma runJob_sends w j o n k :
  runJob rnd w j = (o, n, k) -> o = map SendBatch (sends o).
Proof.
  unfold runJob. destruct (useBatch w j).
  - apply batchLoop_sends.
  - apply charLoop_sends.
Qed.

Lemma runJob_within w j o n k :
  1 <= maxBatchSize w ->
  runJob rnd w j = (o, n, k) -> Forall (within (maxBatchSize w)) (sends o).
Proof.
  intros Hm. unfold runJob. destruct (useBatch w j).
  - apply batchLoop_within. unfold str_len. cbn. lia.
  - now apply charLoop_within.
Qed.

(** A resolution announces no job as queued or done, and what it sends
    is within the batch size. *)
Lemma resumeKont_jobs w f o n k :
  resumeKont rnd w f = (o, n, k) -> queued_jobs o = [] /\ done_jobs o = [].
Proof.
  unfold resumeKont.
  destruct (fkont f) as [batch extra af|af|tk rest|rest|i ch rest|i ch rest].
  - intros H; inversion H; subst. now cbn.
  - destruct af as [tk rest|rest|]; cbn [afterFlush].
    + intros H; inversion H; subst. now cbn.
    + intros H. apply batchLoop_sends in H. rewrite H.
      now rewrite queued_jobs_sends, done_jobs_sends.
    + intros H; inversion H; subst. now cbn.
  - intros H; inversion H; subst. now cbn.
  - intros H. apply batchLoop_sends in H. rewrite H.
    now rewrite queued_jobs_sends, done_jobs_sends.
  - intros H; inversion H; subst. now cbn.
  - destruct (charLoop (isPaused w) (S i) rest (draws w)) as [[o1 n1] k1] eqn:E.
    intros H; inversion H; subst. apply charLoop_sends in E. rewrite E. cbn.
    now rewrite queued_jobs_sends, done_jobs_sends.
Qed.

Lemma resumeKont_within w f o n k :
  1 <= maxBatchSize w ->
  resumeKont rnd w f = (o, n, k) -> Forall (within (maxBatchSize w)) (sends o).
Proof.
  intros Hm. unfold resumeKont.
  destruct (fkont f) as [batch extra af|af|tk rest|rest|i ch rest|i ch rest].
  - intros H; inversion H; subst. cbn. constructor.
  - destruct af as [tk rest|rest|]; cbn [afterFlush].
    + intros H; inversion H; subst. cbn. repeat constructor.
    + apply batchLoop_within. unfold str_len. cbn. lia.
    + intros H; inversion H; subst. cbn. constructor.
  - intros H; inversion H; subst. cbn. constructor.
  - apply batchLoop_within. unfold str_len. cbn. lia.
  - intros H; inversion H; subst. cbn. constructor.
  - destruct (charLoop (isPaused w) (S i) rest (draws w)) as [[o1 n1] k1] eqn:E.
    intros H; inversion H; subst. cbn [sends].
    eapply charLoop_within; eauto.
Qed.

(** The while loop only adds to the trace, takes jobs from the head of
    the queue, and leaves the pause flag and the batch size alone. *)
Lemma whileLoop_frame : forall q w,
  (exists pre T,
      q = (pre ++ queue (whileLoop rnd q w))%list
      /\ trace (whileLoop rnd q w) = (trace w ++ T)%list)
  /\ isPaused (whileLoop rnd q w) = isPaused w
  /\ maxBatchSize (whileLoop rnd q w) = maxBatchSize w.
Proof.
  apply (whileLoop_cases
           (fun q w w' =>
              (exists pre T, q = (pre ++ queue w')%list
                             /\ trace w' = (trace w ++ T)%list)
              /\ isPaused w' = isPaused w
              /\ maxBatchSize w' = maxBatchSize w)).
  - intros q w _. split; [|split; reflexivity].
    exists [], [Ev Idle]. now cbn.
  - intros j q' w o n k' _ _. split; [|split; reflexivity].
    exists [j], o. now cbn.
  - intros j q' w o n w2 _ _ -> [(pre & T & Hq & Ht) [Hp Hm]].
    split; [|split].
    + exists (j :: pre), (o ++ [Ev (JobDone j)] ++ T)%list. split.
      * cbn. now rewrite <- Hq.
      * rewrite Ht. cbn. now rewrite <- !app_assoc.
    + rewrite Hp. reflexivity.
    + rewrite Hm. reflexivity.
Qed.

End Loop.

(** ** Invariants of the engine *)

Section Invariants.

Variable rnd : nat -> Q.

Lemma whileLoop_bounded : forall q w,
  1 <= maxBatchSize w -> bounded w -> bounded (whileLoop rnd q w).
Proof.
  intros q w Hm Hb. unfold bounded.
  destruct (whileLoop_frame rnd q w) as (_ & _ & ->).
  revert Hm Hb. unfold bounded.
  apply (whileLoop_cases rnd
           (fun q w w' =>
              1 <= maxBatchSize w ->
              Forall (within (maxBatchSize w)) (sends (trace w)) ->
              Forall (within (maxBatchSize w)) (sends (trace w')))).
  - intros q0 w0 _ Hm Hb. cbn. rewrite sends_app. cbn. now rewrite app_nil_r.
  - intros j q' w0 o n k' _ E Hm Hb. cbn. rewrite sends_app.
    apply Forall_app. split; [exact Hb|].
    apply (runJob_within rnd _ _ _ _ _ Hm E).
  - intros j q' w0 o n w2 _ E -> IH Hm Hb. apply IH; [exact Hm|].
    cbn. rewrite !sends_app. cbn. rewrite app_nil_r.
    apply Forall_app. split; [exact Hb|].
    apply (runJob_within rnd _ _ _ _ _ Hm E).
Qed.

Lemma ensureRunning_bounded w :
  1 <= maxBatchSize w -> bounded w ->
  bounded (ensureRunning rnd w) /\ maxBatchSize (ensureRunning rnd w) = maxBatchSize w.
Proof.
  intros Hm Hb. unfold ensureRunning.
  destruct (isRunning w || isPaused w); [now split|].
  split.
  - apply whileLoop_bounded; [exact Hm|].
    unfold bounded. cbn. rewrite sends_app. cbn. now rewrite app_nil_r.
  - now destruct (whileLoop_frame rnd (queue w) (emit Started (set_isRunning true w)))
      as (_ & _ & ->).
Qed.

Lemma tick_bounded w :
  1 <= maxBatchSize w -> bounded w ->
  bounded (tick rnd w) /\ maxBatchSize (tick rnd w) = maxBatchSize w.
Proof.
  intros Hm Hb. unfold tick.
  destruct (runner w) as [f|]; [|now split].
  destruct (resumeKont rnd w f) as [[o n] k] eqn:E.
  pose proof (resumeKont_within rnd _ _ _ _ _ Hm E) as Ho.
  assert (Hb1 : bounded (set_draws n (record o w))).
  { unfold bounded. cbn. rewrite sends_app. apply Forall_app. now split. }
  destruct k as [k'|]; [now split|].
  unfold jobFinished. split.
  - apply whileLoop_bounded; [exact Hm|].
    unfold bounded in *. cbn in *. rewrite sends_app. cbn. now rewrite app_nil_r.
  - now destruct (whileLoop_frame rnd (queue (set_draws n (record o w)))
                    (set_currentJob None
                       (emit (JobDone (fjob f)) (set_draws n (record o w)))))
      as (_ & _ & ->).
Qed.

Lemma bounded_emit e w : bounded w -> bounded (emit e w).
Proof.
  unfold bounded. cbn. intros H. rewrite sends_app. cbn. now rewrite app_nil_r.
Qed.

Lemma step_bounded w i :
  1 <= maxBatchSize w -> bounded w ->
  bounded (step rnd w i) /\ maxBatchSize (step rnd w i) = maxBatchSize w.
Proof.
  intros Hm Hb. destruct i as [|t d m| | | |n|b]; cbn [step].
  - now apply tick_bounded.
  - unfold enqueueText. destruct (falsy t); [now split|]. cbn [snd].
    match goal with
    | |- bounded (ensureRunning _ ?x) /\ _ =>
        destruct (ensureRunning_bounded x) as [A B];
        [exact Hm | apply bounded_emit; exact Hb | split; [exact A | exact B]]
    end.
  - split; [|reflexivity]. now apply bounded_emit.
  - unfold resume. destruct (isPaused w); cbn [negb]; [|now split].
    match goal with
    | |- bounded (ensureRunning _ ?x) /\ _ =>
        destruct (ensureRunning_bounded x) as [A B];
        [exact Hm | apply bounded_emit; exact Hb | split; [exact A | exact B]]
    end.
  - split; [|reflexivity]. now apply bounded_emit.
  - now split.
  - now split.
Qed.

Lemma run_bounded sched : forall w,
  1 <= maxBatchSize w -> bounded w ->
  bounded (run rnd sched w) /\ maxBatchSize (run rnd sched w) = maxBatchSize w.
Proof.
  induction sched as [|i sched IH]; intros w Hm Hb; [now split|].
  cbn [run fold_left].
  destruct (step_bounded w i Hm Hb) as [Hb' Hm'].
  destruct (IH (step rnd w i)) as [Hb'' Hm'']; [lia | exact Hb' |].
  fold (run rnd sched (step rnd w i)).
  split; [exact Hb'' | lia].
Qed.

Lemma whileLoop_fifo : forall q w,
  isRunning w = true ->
  queued_jobs (trace w) = (done_jobs (trace w) ++ q)%list ->
  fifo (whileLoop rnd q w).
Proof.
  apply (whileLoop_cases rnd
           (fun q w w' =>
              isRunning w = true ->
              queued_jobs (trace w) = (done_jobs (trace w) ++ q)%list ->
              fifo w')).
  - intros q w _ Hr Hq. split; [|intros H; now cbn in H].
    cbn. rewrite queued_jobs_app, done_jobs_app. cbn.
    now rewrite !app_nil_r.
  - intros j q' w o n k' _ E Hr Hq. split; [|intros _; exact Hr].
    apply runJob_sends in E. cbn.
    rewrite queued_jobs_app, done_jobs_app, E.
    rewrite queued_jobs_sends, done_jobs_sends, !app_nil_r. exact Hq.
  - intros j q' w o n w2 _ E -> IH Hr Hq. apply IH; [exact Hr|].
    apply runJob_sends in E. cbn.
    rewrite !queued_jobs_app, !done_jobs_app, E.
    rewrite queued_jobs_sends, done_jobs_sends. cbn.
    rewrite !app_nil_r, Hq, <- app_assoc. reflexivity.
Qed.

Lemma fifo_idle w : fifo w -> isRunning w = false -> inflight w = [].
Proof.
  intros [_ H] Hr. unfold inflight. destruct (runner w); [|reflexivity].
  assert (isRunning w = true) by (apply H; discriminate). congruence.
Qed.

Lemma ensureRunning_fifo w : fifo w -> fifo (ensureRunning rnd w).
Proof.
  intros Hf. unfold ensureRunning.
  destruct (isRunning w) eqn:Hr; cbn [orb]; [exact Hf|].
  destruct (isPaused w); [exact Hf|].
  apply whileLoop_fifo; [reflexivity|].
  cbn. rewrite queued_jobs_app, done_jobs_app. cbn. rewrite !app_nil_r.
  destruct Hf as [Hq Hrun]. rewrite Hq.
  now rewrite (fifo_idle w (conj Hq Hrun) Hr).
Qed.

Lemma fifo_emit e w :
  (forall j, e <> Queued j) -> (forall j, e <> JobDone j) ->
  fifo w -> fifo (emit e w).
Proof.
  intros H1 H2 [Hq Hr]. split; [|exact Hr].
  cbn. rewrite queued_jobs_app, done_jobs_app.
  destruct e; cbn; rewrite ?app_nil_r; try exact Hq.
  - now destruct (H1 j).
  - now destruct (H2 j).
Qed.

Lemma tick_fifo w : fifo w -> fifo (tick rnd w).
Proof.
  intros [Hq Hr]. unfold tick.
  destruct (runner w) as [f|] eqn:Ef; [|now split].
  destruct (resumeKont rnd w f) as [[o n] k] eqn:E.
  destruct (resumeKont_jobs rnd _ _ _ _ _ E) as [Ho1 Ho2].
  assert (Hrun : isRunning w = true) by (apply Hr; discriminate).
  unfold inflight in Hq. rewrite Ef in Hq.
  destruct k as [k'|].
  - split; [|intros _; exact Hrun].
    cbn. rewrite queued_jobs_app, done_jobs_app, Ho1, Ho2, !app_nil_r.
    exact Hq.
  - unfold jobFinished. apply whileLoop_fifo; [exact Hrun|].
    cbn. rewrite !queued_jobs_app, !done_jobs_app, Ho1, Ho2. cbn.
    rewrite !app_nil_r, Hq, <- app_assoc. reflexivity.
Qed.

Lemma step_fifo w i : is_stop i = false -> fifo w -> fifo (step rnd w i).
Proof.
  intros Hs Hf. destruct i as [|t d m| | | |n|b]; cbn [step]; try discriminate.
  - now apply tick_fifo.
  - unfold enqueueText. destruct (falsy t); [exact Hf|]. cbn [snd].
    apply ensureRunning_fifo. destruct Hf as [Hq Hr]. split; [|exact Hr].
    cbn. rewrite queued_jobs_app, done_jobs_app. cbn.
    rewrite app_nil_r, Hq, <- !app_assoc. reflexivity.
  - apply fifo_emit; try discriminate. exact Hf.
  - unfold resume. destruct (isPaused w); cbn [negb]; [|exact Hf].
    apply ensureRunning_fifo. apply fifo_emit; try discriminate. exact Hf.
  - exact Hf.
  - exact Hf.
Qed.

Lemma run_fifo sched : forall w,
  no_stop sched = true -> fifo w -> fifo (run rnd sched w).
Proof.
  induction sched as [|i sched IH]; intros w Hn Hf; [exact Hf|].
  cbn [run fold_left]. fold (run rnd sched (step rnd w i)).
  cbn [no_stop forallb] in Hn. apply andb_true_iff in Hn. destruct Hn as [Hi Hn].
  apply IH; [exact Hn|]. apply step_fifo; [|exact Hf].
  now apply negb_true_iff.
Qed.

End Invariants.

(** ** The order of jobs when stop() drops some *)

Section Dropping.

Variable rnd : nat -> Q.












End Dropping.

(** ** Timing of a flush *)

(** At 60 words per minute a batch of five characters waits 850ms when
    the draw is 0 and 918ms when it is 1 (the jitter is at most 8%). *)
Lemma paced_wait_at_60wpm :
  (wait_ms 5 (Paced 60 5 0 0) == 850)%Q
  /\ (wait_ms 5 (Paced 60 5 1 0) == 918)%Q.
Proof. split; vm_compute; reflexivity. Qed.

(** ** setWpm *)

(** C3 (amended): [setWpm(-10)] leaves the rate at exactly 5 whatever the
    engine state; [setWpm(0)] does not set 5 but keeps the current rate,
    raised to 5 when it is lower (0 is falsy and falls back to
    [this.wpm]); after any call the rate is at least 5. *)
Theorem setWpm_clamps (w : TypingSimulator) :
  wpm (setWpm (Num (-10)) w) = 5
  /\ wpm (setWpm (Num 0) w) = Z.max 5 (wpm w)
  /\ forall n, 5 <= wpm (setWpm n w).
Proof.
  repeat split.
  - intros n. unfold setWpm. cbn. lia.
Qed.

(** On a new engine (60 wpm) [setWpm(0)] leaves the rate at 60, not 5. *)
Lemma setWpm_zero_keeps_rate : wpm (setWpm (Num 0) fresh) <> 5.
Proof. vm_compute. discriminate. Qed.

(** ** enqueueText *)

(** C6: [enqueueText] with the empty string, [null] or [undefined]
    returns [null] and leaves the engine as it was (same queue, nothing
    emitted).  With a non-empty string it returns the job, puts it at the
    tail of the queue and emits [queued]; when a runner is active or the
    engine is paused the call ends there, otherwise the runner starts
    within the call and takes jobs from the head of that queue. *)
Theorem enqueueText_validation (rnd : nat -> Q) (w : TypingSimulator)
    (d : option Z) (m : option meta) :
  enqueueText rnd (TStr "") d m w = (None, w)
  /\ enqueueText rnd TNull d m w = (None, w)
  /\ enqueueText rnd TUndefined d m w = (None, w)
  /\ forall a s,
       let j := mkJob (String a s) (if_defined d (defaultDelay w))
                      (if_defined m empty_meta) in
       let w' := snd (enqueueText rnd (TStr (String a s)) d m w) in
       fst (enqueueText rnd (TStr (String a s)) d m w) = Some j
       /\ w' = ensureRunning rnd
                 (emit (Queued j) (set_queue (queue w ++ [j]) w))
       /\ if isRunning w || isPaused w
          then queue w' = (queue w ++ [j])%list
               /\ trace w' = (trace w ++ [Ev (Queued j)])%list
          else exists taken T,
                 (queue w ++ [j])%list = (taken ++ queue w')%list
                 /\ trace w' = (trace w ++ [Ev (Queued j); Ev Started] ++ T)%list.
Proof.
  repeat split.
  cbn [enqueueText falsy snd text_string]. unfold ensureRunning.
  cbn [isRunning isPaused emit record set_trace set_queue].
  destruct (isRunning w || isPaused w); [now split|].
  match goal with
  | |- context [whileLoop rnd ?q ?x] =>
      destruct (whileLoop_frame rnd q x) as ((pre & T & Hq & Ht) & _)
  end.
  exists pre, T. split.
  - exact Hq.
  - rewrite Ht. cbn. now rewrite <- !app_assoc.
Qed.

(** ** resume *)

(** C9 (amended): [resume()] called while paused clears the pause flag
    and emits [resumed]; it then emits [started] exactly when no runner
    loop is active ([isRunning] false), whatever the queue holds: with an
    active loop nothing more is emitted, and with no active loop and an
    empty queue [started] is emitted and followed at once by [idle]. *)
Theorem resume_while_paused (rnd : nat -> Q) (w : TypingSimulator) :
  isPaused w = true ->
  isPaused (resume rnd w) = false
  /\ if isRunning w
     then trace (resume rnd w) = (trace w ++ [Ev Resumed])%list
     else exists T,
            trace (resume rnd w) = (trace w ++ [Ev Resumed; Ev Started] ++ T)%list
            /\ (queue w = [] -> T = [Ev Idle]).
Proof.
  intros Hp. unfold resume, ensureRunning. rewrite Hp.
  cbn [negb isRunning isPaused emit record set_trace set_isPaused orb].
  destruct (isRunning w) eqn:Hr; cbn [orb]; [now split|].
  match goal with
  | |- context [whileLoop rnd ?q ?x] =>
      destruct (whileLoop_frame rnd q x) as ((pre & T & Hq & Ht) & Hpa & _)
  end.
  split; [rewrite Hpa; reflexivity|].
  change (queue (emit Resumed (set_isPaused false w))) with (queue w) in *.
  destruct (queue w) as [|j q] eqn:Eq.
  - exists [Ev Idle]. split; [|reflexivity]. cbn. now rewrite <- !app_assoc.
  - exists T. split; [|discriminate]. rewrite Ht. cbn. now rewrite <- !app_assoc.
Qed.

Lemma resume_while_paused_witness :
  isPaused (pause fresh) = true
  /\ isPaused (resume half (pause fresh)) = false
  /\ if isRunning (pause fresh)
     then trace (resume half (pause fresh))
          = (trace (pause fresh) ++ [Ev Resumed])%list
     else exists T,
            trace (resume half (pause fresh))
            = (trace (pause fresh) ++ [Ev Resumed; Ev Started] ++ T)%list
            /\ (queue (pause fresh) = [] -> T = [Ev Idle]).
Proof.
  split; [reflexivity|].
  apply (resume_while_paused half (pause fresh)). reflexivity.
Defined.

(** Paused with an empty queue, [resume()] does emit [started]. *)
Lemma resume_empty_queue_emits_started :
  isPaused (pause fresh) = true
  /\ queue (pause fresh) = []
  /\ In Started (events (trace (resume half (pause fresh)))).
Proof. vm_compute. repeat split. right. right. now left. Qed.

(** ** An uninterrupted run *)

(** C1 (amended): a non-empty text enqueued on an idle engine and run
    without interruption is handed over in order and in full: reading
    ENTER as a newline and TAB as a tab, the payloads sent spell the
    text exactly, and the literal payloads alone spell the text without
    its newlines and tabs (so they reconstruct a text that has none of
    them exactly); the run ends with [job-done] and [idle]. *)
Theorem uninterrupted_run_reconstructs (rnd : nat -> Q) (w : TypingSimulator)
    (a : ascii) (s : string) (d : option Z) (m : option meta) (n : nat) :
  isRunning w = false -> isPaused w = false -> queue w = [] ->
  (loop_ticks (String a s) <= n)%nat ->
  let j := mkJob (String a s) (if_defined d (defaultDelay w))
                 (if_defined m empty_meta) in
  let w' := ticks rnd n (snd (enqueueText rnd (TStr (String a s)) d m w)) in
  exists T,
    trace w' = (trace w ++ [Ev (Queued j); Ev Started] ++ T
                        ++ [Ev (JobDone j); Ev Idle])%list
    /\ concat_str (literals (sends T)) = strip_controls (String a s)
    /\ concat_str (map instr_text (sends T)) = String a s
    /\ isRunning w' = false.
Proof.
  intros Hr Hp Hq Hn j w'. subst w'.
  cbn [enqueueText falsy snd text_string]. fold j.
  unfold ensureRunning.
  cbn [isRunning isPaused emit record set_trace set_queue queue].
  rewrite Hr, Hp, Hq. cbn [orb app whileLoop].
  match goal with
  | |- context [if isPaused ?x then _ else _] =>
      change (isPaused x) with (isPaused w)
  end.
  rewrite Hp.
  match goal with
  | |- context [runJob rnd ?x j] =>
      set (w1 := x); destruct (runJob rnd w1 j) as [[o n0] k] eqn:E
  end.
  assert (Hstart : text_of o ++ pending_opt k = String a s
                   /\ lits_of o ++ strip_controls (pending_opt k)
                      = strip_controls (String a s)
                   /\ (ticks_left_opt k <= loop_ticks (String a s))%nat).
  { unfold runJob in E. change (isPaused w1) with (isPaused w) in E.
    rewrite Hp in E. destruct (useBatch w1 j).
    - destruct (batchLoop_text rnd _ _ _ _ _ _ _ _ E) as [H1 H2].
      apply batchLoop_ticks in E. now repeat split.
    - now apply charLoop_text in E. }
  destruct Hstart as (H1 & H2 & H3).
  destruct k as [k'|].
  - match goal with
    | |- context [ticks rnd n ?x] =>
        destruct (quiet_run rnd n x (mkFrame j (job_wpm w1 j) k'))
          as (T & Ht & Htx & Hl & Hrun & _);
        [reflexivity | exact Hp | reflexivity | cbn in *; lia |]
    end.
    exists (o ++ T)%list. rewrite Ht. cbn [fjob fkont] in *.
    unfold text_of, lits_of in *.
    rewrite sends_app, map_app, literals_app, !concat_str_app.
    cbn [pending_opt] in H1, H2. rewrite Htx, Hl.
    repeat split; auto. cbn. now rewrite <- !app_assoc.
  - rewrite ticks_settled by reflexivity.
    exists o. cbn [pending_opt strip_controls] in H1, H2.
    rewrite append_nil_r in H1, H2.
    repeat split; auto. cbn. now rewrite <- !app_assoc.
Qed.

Lemma uninterrupted_run_reconstructs_witness :
  isRunning fresh = false /\ isPaused fresh = false /\ queue fresh = []
  /\ (loop_ticks ten_text <= 80)%nat
  /\ exists T,
       trace (ticks half 80 (snd (enqueueText half (TStr ten_text) None None fresh)))
       = (trace fresh
            ++ [Ev (Queued (mkJob ten_text 0 empty_meta)); Ev Started] ++ T
            ++ [Ev (JobDone (mkJob ten_text 0 empty_meta)); Ev Idle])%list
       /\ concat_str (literals (sends T)) = strip_controls ten_text
       /\ concat_str (map instr_text (sends T)) = ten_text
       /\ isRunning (ticks half 80
                       (snd (enqueueText half (TStr ten_text) None None fresh)))
          = false.
Proof.
  repeat split; try reflexivity.
  - vm_compute. lia.
  - apply (uninterrupted_run_reconstructs half fresh "a"
             (",bc" ++ String newline "d,e,f,g,h,i,j,") None None 80);
      try reflexivity.
    vm_compute. lia.
Defined.

(** The literal payloads of a text with a newline do not spell it: the
    newline goes out as the ENTER token. *)
Lemma literals_drop_the_newline :
  let txt := "a" ++ String newline "b" in
  let w' := ticks half 20 (snd (enqueueText half (TStr txt) None None fresh)) in
  isRunning w' = false
  /\ literals (sends (trace w')) = ["a"; "b"]
  /\ concat_str (literals (sends (trace w'))) <> txt.
Proof. vm_compute. repeat split. discriminate. Qed.

(** ** The scenario [Hi.] + newline *)

Lemma geb_false a b : a < b -> (a >=? b) = false.
Proof. intros H. destruct (Z.geb_spec a b); [lia | reflexivity]. Qed.

(** C2 (amended): for the text [Hi.] followed by a newline, in batch
    mode with [maxBatchSize >= 3] and [minBatchSize >= 3] (so that no
    random flush can cut the batch short), exactly two instructions are
    sent: the literal payload [Hi.], the period included, whose wait
    carries the extra 260ms pause, then the ENTER token followed by the
    fixed 80ms delay; [job-done] follows. *)
Theorem hi_newline_scenario (rnd : nat -> Q) (w : TypingSimulator) :
  isRunning w = false -> isPaused w = false -> queue w = [] ->
  batchMode w = true ->
  3 <= maxBatchSize w -> 3 <= minBatchSize w ->
  let j := mkJob hi_text (defaultDelay w) empty_meta in
  let w' := ticks rnd 4 (snd (enqueueText rnd (TStr hi_text) None None w)) in
  trace w'
  = (trace w ++
     [Ev (Queued j); Ev Started;
      SendBatch (Lit "Hi.");
      Ev (ProgressToken j "Hi.");
      Timer (Paced (wpm w) 3 (rnd (draws w)) 260);
      SendBatch (Ctl ENTER);
      Timer (Fixed 80);
      Ev (JobDone j); Ev Idle])%list
  /\ isRunning w' = false.
Proof.
  destruct w as [q run pau cur wp bm dd avg maxB minB rn dr tr].
  cbn [isRunning isPaused queue batchMode maxBatchSize minBatchSize wpm draws
       trace defaultDelay].
  intros -> -> -> -> Hmax Hmin.
  unfold ticks, run, hi_text. cbn -[Z.geb].
  rewrite !geb_false by lia. cbn -[Z.geb].
  split; [|reflexivity].
  rewrite <- !app_assoc. reflexivity.
Qed.

Lemma hi_newline_scenario_witness :
  isRunning fresh = false /\ isPaused fresh = false /\ queue fresh = []
  /\ batchMode fresh = true
  /\ 3 <= maxBatchSize fresh /\ 3 <= minBatchSize fresh
  /\ trace (ticks half 4 (snd (enqueueText half (TStr hi_text) None None fresh)))
     = (trace fresh ++
        [Ev (Queued (mkJob hi_text (defaultDelay fresh) empty_meta)); Ev Started;
         SendBatch (Lit "Hi.");
         Ev (ProgressToken (mkJob hi_text (defaultDelay fresh) empty_meta) "Hi.");
         Timer (Paced (wpm fresh) 3 (half (draws fresh)) 260);
         SendBatch (Ctl ENTER);
         Timer (Fixed 80);
         Ev (JobDone (mkJob hi_text (defaultDelay fresh) empty_meta)); Ev Idle])%list
  /\ isRunning (ticks half 4
                  (snd (enqueueText half (TStr hi_text) None None fresh)))
     = false.
Proof.
  assert (H3 : 3 <= maxBatchSize fresh) by (vm_compute; discriminate).
  assert (H4 : 3 <= minBatchSize fresh) by (vm_compute; discriminate).
  repeat (split; [first [reflexivity | assumption]|]).
  apply (hi_newline_scenario half fresh); first [reflexivity | assumption].
Defined.

(** With the default sizes (3 and 12) the literal payload sent is [Hi.],
    not [Hi]. *)
Lemma hi_payload_keeps_the_period :
  3 <= maxBatchSize fresh
  /\ sends (trace (ticks half 4
                     (snd (enqueueText half (TStr hi_text) None None fresh))))
     <> [Lit "Hi"; Ctl ENTER].
Proof. split; vm_compute; discriminate. Qed.

(** ** pause *)

(** C4 (amended): once [pause()] has been called on a job in flight, the
    only instruction that can still be sent is the ENTER or TAB token of
    the newline or tab whose flush the runner is waiting on (the flag is
    looked at once per character, not between that flush and its token);
    in every other position, and always in char-by-char mode, nothing
    more is sent.  The job is then reported by [job-done], the runner
    goes idle, nothing of the job is left to run and the queue is as it
    was.  So a pause after 2 of 10 instructions delivers those 2, and a
    third only when the second was a batch flushed by a newline or tab. *)
Theorem pause_truncates_job (rnd : nat -> Q) (w : TypingSimulator)
    (f : frame) (n : nat) :
  runner w = Some f ->
  (4 <= n)%nat ->
  let w' := ticks rnd n (pause w) in
  exists T,
    trace w' = (trace w ++ [Ev PausedEv] ++ T
                        ++ [Ev (JobDone (fjob f)); Ev Idle])%list
    /\ sends T = owed (fkont f)
    /\ queue w' = queue w
    /\ isRunning w' = false
    /\ runner w' = None.
Proof.
  intros Hr Hn w'. subst w'.
  destruct (paused_run rnd n (pause w) f) as (T & Ht & Hs & Hq & Hrun & Hnone);
    [exact Hr | reflexivity | pose proof (paused_ticks_max (fkont f)); lia |].
  exists T. rewrite Ht. repeat split; auto.
  cbn. now rewrite <- !app_assoc.
Qed.

Lemma pause_truncates_job_witness :
  runner two_sent = Some two_sent_frame
  /\ (4 <= 4)%nat
  /\ exists T,
       trace (ticks half 4 (pause two_sent))
       = (trace two_sent ++ [Ev PausedEv] ++ T
            ++ [Ev (JobDone (fjob two_sent_frame)); Ev Idle])%list
       /\ sends T = owed (fkont two_sent_frame)
       /\ queue (ticks half 4 (pause two_sent)) = queue two_sent
       /\ isRunning (ticks half 4 (pause two_sent)) = false
       /\ runner (ticks half 4 (pause two_sent)) = None.
Proof.
  split; [reflexivity|]. split; [lia|].
  apply (pause_truncates_job half two_sent two_sent_frame 4); [reflexivity | lia].
Defined.

(** [ten_text] makes ten instructions; [pause()] called when exactly two
    of them have been sent lets a third one, ENTER, through. *)
Lemma pause_after_two_sends_three :
  List.length (sends (trace (ticks half 80
                          (snd (enqueueText half (TStr ten_text) None None fresh)))))
  = 10%nat
  /\ sends (trace two_sent) = [Lit "a,"; Lit "bc"]
  /\ sends (trace (ticks half 80 (pause two_sent)))
     = [Lit "a,"; Lit "bc"; Ctl ENTER]
  /\ sends (trace (ticks half 80 (pause two_sent))) <> sends (trace two_sent).
Proof. vm_compute. repeat split. discriminate. Qed.

(** ** stop *)

(** C10: [stop()] called while a job is in flight empties the queue and
    clears the current-job reference and the pause flag, but leaves the
    suspended runner alone: run on without interruption, the runner sends
    every instruction the job still had pending (they spell the whole
    rest of its text), then [job-done] is emitted for it and the runner
    goes idle. *)
Theorem stop_keeps_job_running (rnd : nat -> Q) (w : TypingSimulator)
    (f : frame) (n : nat) :
  runner w = Some f ->
  (ticks_left (fkont f) <= n)%nat ->
  queue (stop w) = []
  /\ currentJob (stop w) = None
  /\ isPaused (stop w) = false
  /\ runner (stop w) = Some f
  /\ exists T,
       trace (ticks rnd n (stop w))
       = (trace w ++ [Ev StoppedEv] ++ T
            ++ [Ev (JobDone (fjob f)); Ev Idle])%list
       /\ concat_str (map instr_text (sends T)) = pending (fkont f)
       /\ isRunning (ticks rnd n (stop w)) = false
       /\ runner (ticks rnd n (stop w)) = None.
Proof.
  intros Hr Hn. repeat (split; [first [reflexivity | exact Hr]|]).
  destruct (quiet_run rnd n (stop w) f) as (T & Ht & Htx & _ & Hrun & Hnone);
    [exact Hr | reflexivity | reflexivity | exact Hn |].
  exists T. rewrite Ht. repeat split; auto.
  cbn. now rewrite <- !app_assoc.
Qed.

Lemma stop_keeps_job_running_witness :
  runner two_sent = Some two_sent_frame
  /\ (ticks_left (fkont two_sent_frame) <= 80)%nat
  /\ queue (stop two_sent) = []
  /\ currentJob (stop two_sent) = None
  /\ isPaused (stop two_sent) = false
  /\ runner (stop two_sent) = Some two_sent_frame
  /\ exists T,
       trace (ticks half 80 (stop two_sent))
       = (trace two_sent ++ [Ev StoppedEv] ++ T
            ++ [Ev (JobDone (fjob two_sent_frame)); Ev Idle])%list
       /\ concat_str (map instr_text (sends T)) = pending (fkont two_sent_frame)
       /\ isRunning (ticks half 80 (stop two_sent)) = false
       /\ runner (ticks half 80 (stop two_sent)) = None.
Proof.
  assert (H : (ticks_left (fkont two_sent_frame) <= 80)%nat) by (vm_compute; lia).
  split; [reflexivity|]. split; [exact H|].
  apply (stop_keeps_job_running half two_sent two_sent_frame 80);
    [reflexivity | exact H].
Defined.

(** ** The batch size *)

(** C5: on an engine built with [maxBatchSize >= 1], whatever is
    enqueued, whenever the engine is paused, resumed or stopped and
    whatever the random source draws, no literal payload handed to
    [_sendBatch] is longer than [maxBatchSize]. *)
Theorem literal_payload_within_maxBatchSize (rnd : nat -> Q) (o : options)
    (sched : list input) (s : string) :
  1 <= maxBatchSize (new_TypingSimulator o) ->
  In (Lit s) (sends (trace (run rnd sched (new_TypingSimulator o)))) ->
  str_len s <= maxBatchSize (new_TypingSimulator o).
Proof.
  intros Hm Hin.
  destruct (run_bounded rnd sched (new_TypingSimulator o) Hm) as [Hb Heq].
  { constructor. }
  unfold bounded in Hb. rewrite Heq in Hb.
  rewrite Forall_forall in Hb. exact (Hb _ Hin).
Qed.

Lemma literal_payload_within_maxBatchSize_witness :
  1 <= maxBatchSize (new_TypingSimulator no_options)
  /\ In (Lit "Hello world,")
        (sends (trace (run half
                         [EnqueueText (TStr "Hello world, again") None None;
                          Tick; Tick]
                         (new_TypingSimulator no_options))))
  /\ str_len "Hello world," <= maxBatchSize (new_TypingSimulator no_options).
Proof.
  assert (H1 : 1 <= maxBatchSize (new_TypingSimulator no_options))
    by (vm_compute; discriminate).
  assert (H2 : In (Lit "Hello world,")
                 (sends (trace (run half
                                  [EnqueueText (TStr "Hello world, again") None None;
                                   Tick; Tick]
                                  (new_TypingSimulator no_options)))))
    by (vm_compute; left; reflexivity).
  split; [exact H1|]. split; [exact H2|].
  exact (literal_payload_within_maxBatchSize half no_options _ _ H1 H2).
Defined.

(** ** Escaping in _sendBatch *)

(** A batch without an opening brace that is not one of the two token
    strings gets the escaping SendKeys expects. *)
Lemma replaceAll_absent c by_ s :
  (forall a, In a (list_ascii_of_string s) -> Ascii.eqb a c = false) ->
  replaceAll c by_ s = s.
Proof.
  induction s as [|a s IH]; cbn; intros H; [reflexivity|].
  rewrite (H a) by now left. f_equal. apply IH. intros b Hb. apply H. now right.
Qed.

Lemma sendkeys_literal_no_lbrace s :
  (forall a, In a (list_ascii_of_string s) -> Ascii.eqb a lbrace = false) ->
  replaceAll rbrace "{}}" s = sendkeys_literal s.
Proof.
  induction s as [|a s IH]; cbn; intros H; [reflexivity|].
  rewrite (H a) by now left.
  rewrite IH by (intros b Hb; apply H; now right). reflexivity.
Qed.

Lemma sendkeys_payload_no_lbrace s :
  (forall a, In a (list_ascii_of_string s) -> Ascii.eqb a lbrace = false) ->
  sendkeys_payload s = sendkeys_literal s.
Proof.
  intros H. unfold sendkeys_payload.
  destruct s as [|a s]; [reflexivity|].
  assert (Ha : Ascii.eqb a lbrace = false) by (apply H; now left).
  assert (E1 : (String a s =? "{ENTER}")%string = false).
  { apply String.eqb_neq. intros E. inversion E; subst. discriminate. }
  assert (E2 : (String a s =? "{TAB}")%string = false).
  { apply String.eqb_neq. intros E. inversion E; subst. discriminate. }
  rewrite E1, E2. cbn [orb].
  rewrite (replaceAll_absent lbrace) by exact H.
  now apply sendkeys_literal_no_lbrace.
Qed.

(** C8: the escaping of [_sendBatch] on the literal batches that break
    it.  An opening brace is wrapped twice, since the second replacement
    also rewrites the closing brace the first one has just added: the
    payload is not the [{{}] that SendKeys reads as a literal brace.  A
    literal batch that reads [{ENTER}] is taken for the token and sent
    unescaped.  Both batches are produced by the pacer from texts. *)
Theorem brace_escaping_fails_on_open_brace :
  sendkeys_payload (instr_arg (Lit "{")) = "{{{}}"
  /\ sendkeys_literal "{" = "{{}"
  /\ sendkeys_payload (instr_arg (Lit "{ENTER}"))
     = sendkeys_payload (instr_arg (Ctl ENTER))
  /\ sendkeys_literal "{ENTER}" = "{{}ENTER{}}"
  /\ sends (trace (snd (enqueueText half (TStr "{") None None fresh)))
     = [Lit "{"]
  /\ sends (trace (snd (enqueueText half (TStr "{ENTER}") None None fresh)))
     = [Lit "{ENTER}"].
Proof. vm_compute. repeat split. Qed.

(** ** The engine between two stretches *)

Section Engine.

Variable rnd : nat -> Q.

Lemma loop_state_app (t u : list obs) :
  loop_state (t ++ u) = fold_left loop_step u (loop_state t).
Proof. unfold loop_state. apply fold_left_app. Qed.

Lemma loop_step_sends (l : list instr) (s : option bool) :
  fold_left loop_step (map SendBatch l) s = s.
Proof. induction l as [|i l IH]; cbn; [reflexivity | exact IH]. Qed.

Lemma runJob_loop_events w j o n k (s : option bool) :
  runJob rnd w j = (o, n, k) -> fold_left loop_step o s = s.
Proof. intros E. apply runJob_sends in E. rewrite E. apply loop_step_sends. Qed.

Lemma resumeKont_loop_events w f o n k (s : option bool) :
  resumeKont rnd w f = (o, n, k) -> fold_left loop_step o s = s.
Proof.
  unfold resumeKont.
  destruct (fkont f) as [batch extra af|af|tk rest|rest|i ch rest|i ch rest].
  - intros H; inversion H; subst. reflexivity.
  - destruct af as [tk rest|rest|]; cbn [afterFlush].
    + intros H; inversion H; subst. reflexivity.
    + intros H. apply batchLoop_sends in H. rewrite H. apply loop_step_sends.
    + intros H; inversion H; subst. reflexivity.
  - intros H; inversion H; subst. reflexivity.
  - intros H. apply batchLoop_sends in H. rewrite H. apply loop_step_sends.
  - intros H; inversion H; subst. reflexivity.
  - destruct (charLoop (isPaused w) (S i) rest (draws w)) as [[o1 n1] k1] eqn:E.
    intros H; inversion H; subst. apply charLoop_sends in E. rewrite E.
    cbn. apply loop_step_sends.
Qed.

Ltac ok_split := split; [|split; [|split; [|split]]].

Lemma whileLoop_engine_ok : forall q w,
  isRunning w = true -> currentJob w = None ->
  loop_state (trace w) = Some true ->
  engine_ok (whileLoop rnd q w).
Proof.
  apply (whileLoop_cases rnd
           (fun q w w' =>
              isRunning w = true -> currentJob w = None ->
              loop_state (trace w) = Some true -> engine_ok w')).
  - intros q w Hex Hr Hc Hl. ok_split.
    + reflexivity.
    + reflexivity.
    + intros _ Hp. cbn in Hp |- *. destruct Hex as [->|Hex]; [reflexivity | congruence].
    + intros j Hj. cbn in Hj. congruence.
    + cbn -[loop_state]. rewrite loop_state_app, Hl. reflexivity.
  - intros j q' w o n k' _ E Hr Hc Hl. ok_split.
    + intros H. cbn in H. congruence.
    + intros H. cbn in H. discriminate.
    + intros H. cbn in H. congruence.
    + intros j0 Hj. cbn in Hj. inversion Hj; subst. eexists. split; reflexivity.
    + cbn -[loop_state]. rewrite loop_state_app, Hl, (runJob_loop_events _ _ _ _ _ _ E). now rewrite Hr.
  - intros j q' w o n w2 _ E -> IH Hr Hc Hl. apply IH.
    + exact Hr.
    + reflexivity.
    + cbn -[loop_state]. rewrite !loop_state_app, Hl, (runJob_loop_events _ _ _ _ _ _ E). reflexivity.
Qed.

(** [_ensureRunning] on an engine that may have work queued while idle
    (as inside [enqueueText] and [resume]). *)
Lemma ensureRunning_engine_ok w :
  (isRunning w = false -> runner w = None) ->
  (runner w = None -> isRunning w = false) ->
  (forall j, currentJob w = Some j -> exists f, runner w = Some f /\ fjob f = j) ->
  loop_state (trace w) = Some (isRunning w) ->
  engine_ok (ensureRunning rnd w).
Proof.
  intros Ha1 Ha2 Hc Hl. unfold ensureRunning.
  destruct (isRunning w) eqn:Hr; cbn [orb].
  { ok_split; auto; try congruence; try (now rewrite Hr). }
  destruct (isPaused w) eqn:Hp.
  { ok_split; auto; try congruence; try (now rewrite Hr). }
  apply whileLoop_engine_ok.
  - reflexivity.
  - cbn. destruct (currentJob w) as [j|] eqn:Ej; [|reflexivity].
    destruct (Hc j eq_refl) as (f & Hf & _). rewrite Ha1 in Hf by reflexivity.
    discriminate.
  - cbn -[loop_state]. rewrite loop_state_app, Hl. reflexivity.
Qed.

Lemma tick_engine_ok w : engine_ok w -> engine_ok (tick rnd w).
Proof.
  intros Hok. pose proof Hok as (Ha1 & Ha2 & Hb & Hc & Hl). unfold tick.
  destruct (runner w) as [f|] eqn:Ef; [|exact Hok].
  assert (Hr : isRunning w = true).
  { destruct (isRunning w); [reflexivity|]. specialize (Ha1 eq_refl). congruence. }
  destruct (resumeKont rnd w f) as [[o n] k] eqn:E.
  destruct k as [k'|].
  - ok_split.
    + intros H. cbn in H. congruence.
    + intros H. cbn in H. discriminate.
    + intros H. cbn in H. congruence.
    + intros j Hj. cbn in Hj. destruct (Hc j Hj) as (f0 & Hf0 & Hj0).
      inversion Hf0; subst. eexists. split; reflexivity.
    + cbn -[loop_state]. rewrite loop_state_app, Hl, (resumeKont_loop_events _ _ _ _ _ _ E).
      reflexivity.
  - unfold jobFinished. apply whileLoop_engine_ok.
    + exact Hr.
    + reflexivity.
    + cbn -[loop_state]. rewrite !loop_state_app, Hl, (resumeKont_loop_events _ _ _ _ _ _ E).
      cbn. now rewrite Hr.
Qed.

Lemma step_engine_ok w i : engine_ok w -> engine_ok (step rnd w i).
Proof.
  intros Hok. pose proof Hok as (Ha1 & Ha2 & Hb & Hc & Hl).
  destruct i as [|t d m| | | |n|b]; cbn [step].
  - now apply tick_engine_ok.
  - unfold enqueueText. destruct (falsy t); [exact Hok|]. cbn [snd].
    apply ensureRunning_engine_ok; auto.
    cbn -[loop_state]. rewrite loop_state_app, Hl. reflexivity.
  - ok_split; auto.
    + intros _ H. cbn in H. discriminate.
    + cbn -[loop_state]. rewrite loop_state_app, Hl. reflexivity.
  - unfold resume. destruct (isPaused w) eqn:Hp; cbn [negb]; [|exact Hok].
    apply ensureRunning_engine_ok; auto.
    cbn -[loop_state]. rewrite loop_state_app, Hl. reflexivity.
  - ok_split; auto.
    + intros j H. cbn in H. discriminate.
    + cbn -[loop_state]. rewrite loop_state_app, Hl. reflexivity.
  - exact Hok.
  - exact Hok.
Qed.

Lemma run_engine_ok sched : forall w, engine_ok w -> engine_ok (run rnd sched w).
Proof.
  induction sched as [|i sched IH]; intros w Hok; [exact Hok|].
  cbn [run fold_left]. fold (run rnd sched (step rnd w i)).
  apply IH. now apply step_engine_ok.
Qed.

Lemma new_engine_ok o : engine_ok (new_TypingSimulator o).
Proof.
  ok_split; auto.
  intros j H. cbn in H. discriminate.
Qed.

End Engine.

(** X1: whatever has been called, an engine that is neither running nor
    paused has nothing queued: work never sits in the queue of an idle,
    unpaused engine. *)
Theorem idle_engine_has_empty_queue (rnd : nat -> Q) (o : options)
    (sched : list input) :
  let w := run rnd sched (new_TypingSimulator o) in
  isRunning w = false -> isPaused w = false -> queue w = [].
Proof.
  intros w.
  destruct (run_engine_ok rnd sched _ (new_engine_ok o)) as (_ & _ & Hb & _).
  exact Hb.
Qed.

Lemma idle_engine_has_empty_queue_witness :
  isRunning (run half (three_jobs ++ repeat Tick 20)
               (new_TypingSimulator no_options)) = false
  /\ isPaused (run half (three_jobs ++ repeat Tick 20)
                 (new_TypingSimulator no_options)) = false
  /\ queue (run half (three_jobs ++ repeat Tick 20)
              (new_TypingSimulator no_options)) = [].
Proof.
  assert (H1 : isRunning (run half (three_jobs ++ repeat Tick 20)
                            (new_TypingSimulator no_options)) = false)
    by (vm_compute; reflexivity).
  assert (H2 : isPaused (run half (three_jobs ++ repeat Tick 20)
                           (new_TypingSimulator no_options)) = false)
    by (vm_compute; reflexivity).
  split; [exact H1|]. split; [exact H2|].
  exact (idle_engine_has_empty_queue half no_options
           (three_jobs ++ repeat Tick 20) H1 H2).
Defined.

(** X2: in every run the events [started] and [idle] alternate, [started]
    first, and [isRunning] is set exactly from a [started] to the next
    [idle]: there is never a second runner loop beside an active one. *)
Theorem started_and_idle_alternate (rnd : nat -> Q) (o : options)
    (sched : list input) :
  let w := run rnd sched (new_TypingSimulator o) in
  loop_state (trace w) = Some (isRunning w).
Proof.
  intros w.
  destruct (run_engine_ok rnd sched _ (new_engine_ok o)) as (_ & _ & _ & _ & Hl).
  exact Hl.
Qed.

(** X3: whenever [currentJob] is set, it is the job the runner is
    working on and [isRunning] is set; [stop()] may clear the reference
    under a running job, but nothing ever sets it to another job. *)
Theorem currentJob_is_the_job_in_flight (rnd : nat -> Q) (o : options)
    (sched : list input) (j : job) :
  let w := run rnd sched (new_TypingSimulator o) in
  currentJob w = Some j -> inflight w = [j] /\ isRunning w = true.
Proof.
  intros w Hj.
  destruct (run_engine_ok rnd sched _ (new_engine_ok o)) as (Ha1 & _ & _ & Hc & _).
  fold w in Ha1, Hc. destruct (Hc j Hj) as (f & Hf & Hfj).
  unfold inflight. rewrite Hf, Hfj. split; [reflexivity|].
  destruct (isRunning w); [reflexivity|]. rewrite Ha1 in Hf by reflexivity.
  discriminate.
Qed.

Lemma currentJob_is_the_job_in_flight_witness :
  currentJob (run half [EnqueueText (TStr ten_text) None None; Tick]
                (new_TypingSimulator no_options))
  = Some (mkJob ten_text 0 empty_meta)
  /\ inflight (run half [EnqueueText (TStr ten_text) None None; Tick]
                 (new_TypingSimulator no_options))
     = [mkJob ten_text 0 empty_meta]
  /\ isRunning (run half [EnqueueText (TStr ten_text) None None; Tick]
                  (new_TypingSimulator no_options)) = true.
Proof.
  split; [reflexivity|].
  apply (currentJob_is_the_job_in_flight half no_options
           [EnqueueText (TStr ten_text) None None; Tick]).
  reflexivity.
Defined.

(** ** The jobs announced *)

Section Announced.

Variable rnd : nat -> Q.

Lemma whileLoop_announced : forall q w,
  defaultDelay (whileLoop rnd q w) = defaultDelay w
  /\ queued_jobs (trace (whileLoop rnd q w)) = queued_jobs (trace w).
Proof.
  apply (whileLoop_cases rnd
           (fun q w w' =>
              defaultDelay w' = defaultDelay w
              /\ queued_jobs (trace w') = queued_jobs (trace w))).
  - intros q w _. split; [reflexivity|].
    cbn. rewrite queued_jobs_app. cbn. now rewrite app_nil_r.
  - intros j q' w o n k' _ E. split; [reflexivity|].
    apply runJob_sends in E. cbn.
    now rewrite queued_jobs_app, E, queued_jobs_sends, app_nil_r.
  - intros j q' w o n w2 _ E -> [IH1 IH2]. split.
    + rewrite IH1. reflexivity.
    + rewrite IH2. apply runJob_sends in E. cbn.
      rewrite !queued_jobs_app, E, queued_jobs_sends. cbn.
      now rewrite !app_nil_r.
Qed.

Lemma ensureRunning_announced w :
  defaultDelay (ensureRunning rnd w) = defaultDelay w
  /\ queued_jobs (trace (ensureRunning rnd w)) = queued_jobs (trace w).
Proof.
  unfold ensureRunning. destruct (isRunning w || isPaused w); [now split|].
  destruct (whileLoop_announced (queue w) (emit Started (set_isRunning true w)))
    as [H1 H2].
  split; [exact H1|]. rewrite H2. cbn. rewrite queued_jobs_app. cbn.
  now rewrite app_nil_r.
Qed.

Lemma tick_announced w :
  defaultDelay (tick rnd w) = defaultDelay w
  /\ queued_jobs (trace (tick rnd w)) = queued_jobs (trace w).
Proof.
  unfold tick. destruct (runner w) as [f|]; [|now split].
  destruct (resumeKont rnd w f) as [[o n] k] eqn:E.
  destruct (resumeKont_jobs rnd _ _ _ _ _ E) as [Ho _].
  destruct k as [k'|].
  - split; [reflexivity|]. cbn. now rewrite queued_jobs_app, Ho, app_nil_r.
  - unfold jobFinished.
    match goal with
    | |- context [whileLoop rnd ?q ?x] =>
        destruct (whileLoop_announced q x) as [H1 H2]
    end.
    split; [exact H1|]. rewrite H2. cbn. rewrite !queued_jobs_app, Ho. cbn.
    now rewrite !app_nil_r.
Qed.

Lemma step_announced w i :
  defaultDelay (step rnd w i) = defaultDelay w
  /\ queued_jobs (trace (step rnd w i))
     = (queued_jobs (trace w) ++ accepted (defaultDelay w) [i])%list.
Proof.
  destruct i as [|t d m| | | |n|b]; cbn [step accepted]; rewrite ?app_nil_r.
  - apply tick_announced.
  - unfold enqueueText. destruct (falsy t); [now rewrite app_nil_r|]. cbn [snd].
    match goal with
    | |- context [ensureRunning rnd ?x] =>
        destruct (ensureRunning_announced x) as [H1 H2]
    end.
    split; [exact H1|]. rewrite H2. cbn. rewrite queued_jobs_app. reflexivity.
  - split; [reflexivity|]. cbn. rewrite queued_jobs_app. cbn. now rewrite app_nil_r.
  - unfold resume. destruct (isPaused w); cbn [negb]; [|now split].
    match goal with
    | |- context [ensureRunning rnd ?x] =>
        destruct (ensureRunning_announced x) as [H1 H2]
    end.
    split; [exact H1|]. rewrite H2. cbn. rewrite queued_jobs_app. cbn.
    now rewrite app_nil_r.
  - split; [reflexivity|]. cbn. rewrite queued_jobs_app. cbn. now rewrite app_nil_r.
  - now split.
  - now split.
Qed.

Lemma accepted_cons dd i sched :
  accepted dd (i :: sched) = (accepted dd [i] ++ accepted dd sched)%list.
Proof.
  destruct i as [|t d m| | | |n|b]; cbn [accepted]; try reflexivity.
  destruct (falsy t); reflexivity.
Qed.

Lemma run_announced sched : forall w,
  defaultDelay (run rnd sched w) = defaultDelay w
  /\ queued_jobs (trace (run rnd sched w))
     = (queued_jobs (trace w) ++ accepted (defaultDelay w) sched)%list.
Proof.
  induction sched as [|i sched IH]; intros w.
  - split; [reflexivity|]. cbn. now rewrite app_nil_r.
  - cbn [run fold_left]. fold (run rnd sched (step rnd w i)).
    destruct (step_announced w i) as [S1 S2].
    destruct (IH (step rnd w i)) as [I1 I2].
    split; [congruence|].
    rewrite I2, S2, S1, (accepted_cons _ i sched), app_assoc. reflexivity.
Qed.

(** Unpaused, a stretch of the batch loop that has anything to type ends
    with one instruction handed to [_sendBatch] and the runner waiting
    for it. *)
Lemma batchLoop_first maxB minB str : forall batch n o n' k,
  batchLoop rnd false maxB minB str batch n = (o, n', k) ->
  batch ++ str <> "" ->
  exists i k', o = [SendBatch i] /\ k = Some k'.
Proof.
  induction str as [|a rest IH]; intros batch n o n' k H Hne.
  - rewrite append_nil_r in Hne. cbn [batchLoop] in H.
    unfold afterLoop, flushBatch in H.
    destruct batch; [congruence|]. inversion H; subst. eauto.
  - revert H. cbn [batchLoop].
    destruct (Ascii.eqb a newline).
    { unfold flushBatch, sendToken. destruct batch; intros H; inversion H; eauto. }
    destruct (Ascii.eqb a tab).
    { unfold flushBatch, sendToken. destruct batch; intros H; inversion H; eauto. }
    rewrite ?flushBatch_snoc.
    destruct (isPunct a || (str_len (batch ++ String a "") >=? maxB)).
    { intros H; inversion H; eauto. }
    destruct (str_len (batch ++ String a "") >=? minB).
    + destruct (randomFlush rnd n).
      { intros H; inversion H; eauto. }
      intros H. eapply IH; [exact H|]. rewrite append_snoc. destruct batch; discriminate.
    + intros H. eapply IH; [exact H|]. rewrite append_snoc. destruct batch; discriminate.
Qed.

(** Unpaused, [_runJob] on a non-empty text sends exactly one
    instruction, the head of the text, before its first wait. *)
Lemma runJob_first w j :
  isPaused w = false -> text j <> "" ->
  exists i n k,
    runJob rnd w j = ([SendBatch i], n, Some k)
    /\ text j = instr_text i ++ pending k
    /\ (ticks_left k <= loop_ticks (text j))%nat.
Proof.
  intros Hp Hne. unfold runJob. rewrite Hp.
  destruct (useBatch w j).
  - destruct (batchLoop rnd false (maxBatchSize w) (minBatchSize w) (text j) ""
                (draws w)) as [[o n] k] eqn:E.
    destruct (batchLoop_first _ _ _ _ _ _ _ _ E Hne) as (i & k' & -> & ->).
    destruct (batchLoop_text rnd _ _ _ _ _ _ _ _ E) as [H1 _].
    apply batchLoop_ticks in E.
    exists i, n, k'. split; [reflexivity|]. split; [|exact E].
    cbn in H1. rewrite append_nil_r in H1. now rewrite H1.
  - destruct (text j) as [|a rest] eqn:Et; [congruence|].
    cbn [charLoop]. eexists _, _, _. split; [reflexivity|].
    cbn [pending ticks_left]. split.
    + destruct (Ascii.eqb a newline) eqn:E1.
      { apply Ascii.eqb_eq in E1. now subst a. }
      destruct (Ascii.eqb a tab) eqn:E2.
      { apply Ascii.eqb_eq in E2. now subst a. }
      reflexivity.
    + unfold loop_ticks. cbn [String.length]. lia.
Qed.

(** A non-empty text enqueued on an idle engine and left to run. *)
Lemma idle_enqueue_runs (w : TypingSimulator) (a : ascii) (s : string)
    (d : option Z) (m : option meta) (n : nat) :
  isRunning w = false -> isPaused w = false -> queue w = [] ->
  (loop_ticks (String a s) <= n)%nat ->
  let j := mkJob (String a s) (if_defined d (defaultDelay w))
                 (if_defined m empty_meta) in
  let w' := ticks rnd n (snd (enqueueText rnd (TStr (String a s)) d m w)) in
  exists T,
    trace w' = (trace w ++ [Ev (Queued j); Ev Started] ++ T
                        ++ [Ev (JobDone j); Ev Idle])%list
    /\ text_of T = String a s
    /\ isRunning w' = false.
Proof.
  intros Hr Hp Hq Hn j w'. subst w'.
  cbn [enqueueText falsy snd text_string]. fold j.
  unfold ensureRunning.
  cbn [isRunning isPaused emit record set_trace set_queue queue].
  rewrite Hr, Hp, Hq. cbn [orb app whileLoop].
  match goal with
  | |- context [if isPaused ?x then _ else _] =>
      change (isPaused x) with (isPaused w)
  end.
  rewrite Hp.
  match goal with
  | |- context [runJob rnd ?x j] => set (w1 := x)
  end.
  destruct (runJob_first w1 j Hp) as (i & n0 & k & E & Ht & Hk); [discriminate|].
  rewrite E.
  match goal with
  | |- context [ticks rnd n ?x] =>
      destruct (quiet_run rnd n x (mkFrame j (job_wpm w1 j) k))
        as (T & HT & Htx & _ & Hrun & _);
      [reflexivity | exact Hp | reflexivity
      | cbn [fkont]; change (text j) with (String a s) in Hk; lia |]
  end.
  exists (SendBatch i :: T). rewrite HT. cbn [fjob fkont] in *.
  unfold text_of in *. cbn [sends map concat_str]. rewrite Htx.
  change (text j) with (String a s) in Ht.
  repeat split; auto. cbn. now rewrite <- !app_assoc.
Qed.

End Announced.

(** X4: in every run the [queued] events announce exactly the jobs of
    the [enqueueText] calls that passed a non-empty text, in call order,
    each with the delay and meta it was given (the default delay and the
    empty meta when left out); no other call emits [queued]. *)
Theorem queued_events_are_the_accepted_calls (rnd : nat -> Q) (o : options)
    (sched : list input) :
  queued_jobs (trace (run rnd sched (new_TypingSimulator o)))
  = accepted (defaultDelay (new_TypingSimulator o)) sched.
Proof.
  destruct (run_announced rnd sched (new_TypingSimulator o)) as [_ H].
  exact H.
Qed.

(** X5: [typeClipboard] with an empty clipboard returns [false] and
    leaves the engine as it is.  With a non-empty clipboard it returns
    [true] and announces exactly one more job, holding the clipboard
    text, the delay asked for and the source [clipboard]; on an idle
    engine that job is then typed out in full. *)
Theorem typeClipboard_enqueues_the_clipboard (rnd : nat -> Q) (d : option Z)
    (w0 w : TypingSimulator) :
  typeClipboard rnd d w0 "" w = (false, w)
  /\ forall a s,
       let j := mkJob (String a s) (if_defined d (defaultDelay w0)) clipboard_meta in
       let w' := snd (typeClipboard rnd d w0 (String a s) w) in
       fst (typeClipboard rnd d w0 (String a s) w) = true
       /\ queued_jobs (trace w') = (queued_jobs (trace w) ++ [j])%list
       /\ (isRunning w = false -> isPaused w = false -> queue w = [] ->
           forall n, (loop_ticks (String a s) <= n)%nat ->
           exists T,
             trace (ticks rnd n w')
             = (trace w ++ [Ev (Queued j); Ev Started] ++ T
                  ++ [Ev (JobDone j); Ev Idle])%list
             /\ text_of T = String a s).
Proof.
  split; [reflexivity|]. intros a s j w'. subst w'. cbn [typeClipboard fst snd].
  split; [reflexivity|]. split.
  - cbn [enqueueText falsy snd text_string if_defined].
    match goal with
    | |- context [ensureRunning rnd ?x] =>
        destruct (ensureRunning_announced rnd x) as [_ H2]
    end.
    rewrite H2. cbn. rewrite queued_jobs_app. reflexivity.
  - intros Hr Hp Hq n Hn.
    destruct (idle_enqueue_runs rnd w a s (Some (if_defined d (defaultDelay w0)))
                (Some clipboard_meta) n Hr Hp Hq Hn) as (T & HT & Htx & _).
    exists T. split; [exact HT | exact Htx].
Qed.

Lemma typeClipboard_enqueues_the_clipboard_witness :
  isRunning fresh = false /\ isPaused fresh = false /\ queue fresh = []
  /\ (loop_ticks hi_text <= 20)%nat
  /\ exists T,
       trace (ticks half 20 (snd (typeClipboard half None fresh hi_text fresh)))
       = (trace fresh
            ++ [Ev (Queued (mkJob hi_text 0 clipboard_meta)); Ev Started] ++ T
            ++ [Ev (JobDone (mkJob hi_text 0 clipboard_meta)); Ev Idle])%list
       /\ text_of T = hi_text.
Proof.
  assert (Hn : (loop_ticks hi_text <= 20)%nat) by (vm_compute; lia).
  repeat (split; [first [reflexivity | exact Hn]|]).
  exact (proj2 (proj2 (proj2 (typeClipboard_enqueues_the_clipboard half None fresh fresh)
                         "H"%char ("i." ++ String newline "")%string))
           eq_refl eq_refl eq_refl 20%nat Hn).
Defined.

(** X6: [enqueueText] with a non-empty text on an idle engine does not
    only queue the job: in char-by-char mode, and in batch mode when the
    text does not begin with a newline or a tab, the runner has before
    the call returns taken the job, made it the current job and handed
    exactly one instruction to [_sendBatch], the head of the text.  (A
    batch-mode text that begins with a newline or a tab is left out: the
    runner first yields on the flush of the empty buffer, and the token
    goes out once the caller has returned.) *)
Theorem enqueueText_sends_the_first_instruction (rnd : nat -> Q)
    (w : TypingSimulator) (a : ascii) (s : string) (d : option Z)
    (m : option meta) :
  isRunning w = false -> isPaused w = false -> queue w = [] ->
  let j := mkJob (String a s) (if_defined d (defaultDelay w))
                 (if_defined m empty_meta) in
  let w' := snd (enqueueText rnd (TStr (String a s)) d m w) in
  useBatch w j && (Ascii.eqb a newline || Ascii.eqb a tab) = false ->
  exists i f,
    trace w' = (trace w ++ [Ev (Queued j); Ev Started; SendBatch i])%list
    /\ runner w' = Some f /\ fjob f = j
    /\ currentJob w' = Some j
    /\ queue w' = []
    /\ String a s = instr_text i ++ pending (fkont f).
Proof.
  intros Hr Hp Hq j w' _. subst w'.
  cbn [enqueueText falsy snd text_string]. fold j.
  unfold ensureRunning.
  cbn [isRunning isPaused emit record set_trace set_queue queue].
  rewrite Hr, Hp, Hq. cbn [orb app whileLoop].
  match goal with
  | |- context [if isPaused ?x then _ else _] =>
      change (isPaused x) with (isPaused w)
  end.
  rewrite Hp.
  match goal with
  | |- context [runJob rnd ?x j] => set (w1 := x)
  end.
  destruct (runJob_first rnd w1 j Hp) as (i & n0 & k & E & Ht & _); [discriminate|].
  rewrite E. eexists i, _. cbn.
  repeat split; auto. now rewrite <- !app_assoc.
Qed.

Lemma enqueueText_sends_the_first_instruction_witness :
  isRunning fresh = false /\ isPaused fresh = false /\ queue fresh = []
  /\ useBatch fresh (mkJob hi_text 0 empty_meta)
     && (Ascii.eqb "H" newline || Ascii.eqb "H" tab) = false
  /\ exists i f,
       trace (snd (enqueueText half (TStr hi_text) None None fresh))
       = (trace fresh ++ [Ev (Queued (mkJob hi_text 0 empty_meta)); Ev Started;
                          SendBatch i])%list
       /\ runner (snd (enqueueText half (TStr hi_text) None None fresh)) = Some f
       /\ fjob f = mkJob hi_text 0 empty_meta
       /\ currentJob (snd (enqueueText half (TStr hi_text) None None fresh))
          = Some (mkJob hi_text 0 empty_meta)
       /\ queue (snd (enqueueText half (TStr hi_text) None None fresh)) = []
       /\ hi_text = instr_text i ++ pending (fkont f).
Proof.
  repeat (split; [reflexivity|]).
  exact (enqueueText_sends_the_first_instruction half fresh "H"
           ("i." ++ String newline "") None None eq_refl eq_refl eq_refl eq_refl).
Defined.

(** X7: [resume()] on an engine that is paused with no runner loop
    active (as after a pause has cut a job short) starts the runner on
    the job at the head of the queue: [resumed] and [started] are
    emitted and that job becomes current; in char-by-char mode, and in
    batch mode when its text does not begin with a newline or a tab, its
    first instruction is sent within the call.  Nothing of an earlier
    job is sent.  (For a batch-mode text that begins with a newline or a
    tab the token goes out once the caller has returned.) *)
Theorem resume_starts_the_next_job (rnd : nat -> Q) (w : TypingSimulator)
    (j : job) (q : list job) (a : ascii) (s : string) :
  isPaused w = true -> isRunning w = false -> queue w = j :: q ->
  text j = String a s ->
  useBatch w j && (Ascii.eqb a newline || Ascii.eqb a tab) = false ->
  exists i f,
    trace (resume rnd w)
    = (trace w ++ [Ev Resumed; Ev Started; SendBatch i])%list
    /\ runner (resume rnd w) = Some f /\ fjob f = j
    /\ currentJob (resume rnd w) = Some j
    /\ queue (resume rnd w) = q
    /\ text j = instr_text i ++ pending (fkont f).
Proof.
  intros Hp Hr Hq Ht _.
  assert (Hne : text j <> "") by (rewrite Ht; discriminate).
  clear Ht. unfold resume, ensureRunning. rewrite Hp.
  cbn [negb isRunning isPaused emit record set_trace set_isPaused queue].
  rewrite Hr, Hq. cbn [orb whileLoop isPaused set_isRunning].
  match goal with
  | |- context [runJob rnd ?x j] => set (w1 := x)
  end.
  destruct (runJob_first rnd w1 j eq_refl Hne) as (i & n0 & k & E & Ht & _).
  rewrite E. eexists i, _. cbn.
  repeat split; auto. now rewrite <- !app_assoc.
Qed.

Lemma resume_starts_the_next_job_witness :
  let w := run half [EnqueueText (TStr ten_text) None None; Tick; Tick; Pause;
                     EnqueueText (TStr hi_text) None None;
                     Tick; Tick; Tick; Tick]
             fresh in
  isPaused w = true /\ isRunning w = false
  /\ queue w = [mkJob hi_text 0 empty_meta]
  /\ text (mkJob hi_text 0 empty_meta) = String "H" ("i." ++ String newline "")
  /\ useBatch w (mkJob hi_text 0 empty_meta)
     && (Ascii.eqb "H" newline || Ascii.eqb "H" tab) = false
  /\ exists i f,
       trace (resume half w)
       = (trace w ++ [Ev Resumed; Ev Started; SendBatch i])%list
       /\ runner (resume half w) = Some f
       /\ fjob f = mkJob hi_text 0 empty_meta
       /\ currentJob (resume half w) = Some (mkJob hi_text 0 empty_meta)
       /\ queue (resume half w) = []
       /\ text (mkJob hi_text 0 empty_meta) = instr_text i ++ pending (fkont f).
Proof.
  intros w.
  repeat (split; [reflexivity|]).
  exact (resume_starts_the_next_job half w (mkJob hi_text 0 empty_meta) []
           "H" ("i." ++ String newline "") eq_refl eq_refl eq_refl eq_refl eq_refl).
Defined.

(** X8: a pause that is resumed before the runner wakes up costs the job
    nothing: with the runner waiting and nothing else queued, after
    [pause()] then [resume()] the uninterrupted run still sends the whole
    pending rest of the text, then [job-done] and [idle]; [resume()]
    starts no second runner. *)
Theorem pause_then_resume_loses_nothing (rnd : nat -> Q) (w : TypingSimulator)
    (f : frame) (n : nat) :
  runner w = Some f -> isRunning w = true -> isPaused w = false ->
  queue w = [] ->
  (ticks_left (fkont f) <= n)%nat ->
  exists T,
    trace (ticks rnd n (resume rnd (pause w)))
    = (trace w ++ [Ev PausedEv; Ev Resumed] ++ T
         ++ [Ev (JobDone (fjob f)); Ev Idle])%list
    /\ text_of T = pending (fkont f)
    /\ isRunning (ticks rnd n (resume rnd (pause w))) = false.
Proof.
  intros Hf Hr Hp Hq Hn.
  assert (E : resume rnd (pause w)
              = emit Resumed (set_isPaused false (emit PausedEv (set_isPaused true w)))).
  { unfold resume, pause, ensureRunning. cbn. now rewrite Hr. }
  rewrite E.
  match goal with
  | |- context [ticks rnd n ?x] =>
      destruct (quiet_run rnd n x f) as (T & HT & Htx & _ & Hrun & _);
      [exact Hf | reflexivity | exact Hq | exact Hn |]
  end.
  exists T. rewrite HT. repeat split; auto. cbn. now rewrite <- !app_assoc.
Qed.

Lemma pause_then_resume_loses_nothing_witness :
  runner two_sent = Some two_sent_frame
  /\ isRunning two_sent = true /\ isPaused two_sent = false
  /\ queue two_sent = []
  /\ (ticks_left (fkont two_sent_frame) <= 80)%nat
  /\ exists T,
       trace (ticks half 80 (resume half (pause two_sent)))
       = (trace two_sent ++ [Ev PausedEv; Ev Resumed] ++ T
            ++ [Ev (JobDone (fjob two_sent_frame)); Ev Idle])%list
       /\ text_of T = pending (fkont two_sent_frame)
       /\ isRunning (ticks half 80 (resume half (pause two_sent))) = false.
Proof.
  assert (H : (ticks_left (fkont two_sent_frame) <= 80)%nat) by (vm_compute; lia).
  repeat (split; [first [reflexivity | exact H]|]).
  exact (pause_then_resume_loses_nothing half two_sent two_sent_frame 80
           eq_refl eq_refl eq_refl eq_refl H).
Defined.

(** ** Settings changed under a running job *)

Section Settings.

Variable rnd : nat -> Q.

Lemma tick_set_wpm v w :
  queue w = [] ->
  tick rnd (set_wpm v w) = set_wpm v (tick rnd w) /\ queue (tick rnd w) = [].
Proof.
  intros Hq. unfold tick. cbn [runner set_wpm].
  destruct (runner w) as [f|]; [|now split].
  change (resumeKont rnd (set_wpm v w) f) with (resumeKont rnd w f).
  destruct (resumeKont rnd w f) as [[o n] [k'|]].
  - now split.
  - unfold jobFinished. cbn [queue set_draws record set_trace set_wpm].
    rewrite Hq. now split.
Qed.

Lemma tick_set_batchMode b w :
  queue w = [] ->
  tick rnd (set_batchMode b w) = set_batchMode b (tick rnd w)
  /\ queue (tick rnd w) = [].
Proof.
  intros Hq. unfold tick. cbn [runner set_batchMode].
  destruct (runner w) as [f|]; [|now split].
  change (resumeKont rnd (set_batchMode b w) f) with (resumeKont rnd w f).
  destruct (resumeKont rnd w f) as [[o n] [k'|]].
  - now split.
  - unfold jobFinished. cbn [queue set_draws record set_trace set_batchMode].
    rewrite Hq. now split.
Qed.

Lemma ticks_set_wpm n : forall v w,
  queue w = [] -> ticks rnd n (set_wpm v w) = set_wpm v (ticks rnd n w).
Proof.
  induction n as [|n IH]; intros v w Hq; [reflexivity|].
  rewrite !ticks_S. destruct (tick_set_wpm v w Hq) as [E Hq'].
  rewrite E. now apply IH.
Qed.

Lemma ticks_set_batchMode n : forall b w,
  queue w = [] ->
  ticks rnd n (set_batchMode b w) = set_batchMode b (ticks rnd n w).
Proof.
  induction n as [|n IH]; intros b w Hq; [reflexivity|].
  rewrite !ticks_S. destruct (tick_set_batchMode b w Hq) as [E Hq'].
  rewrite E. now apply IH.
Qed.

(** The char-by-char loop from a character that has been sent: its
    wait, its progress event, then the rest of the text character by
    character, [job-done] and [idle]. *)
Lemma char_run rest : forall w j v i ch,
  runner w = Some (mkFrame j v (KCharSend i ch rest)) ->
  isPaused w = false -> queue w = [] ->
  trace (ticks rnd (2 * S (String.length rest)) w)
  = (trace w ++ [Timer (Paced v 1 (rnd (draws w)) 0); Ev (ProgressChar j i ch)]
       ++ char_script rnd j v (S i) (S (draws w)) rest
       ++ [Ev (JobDone j); Ev Idle])%list
  /\ runner (ticks rnd (2 * S (String.length rest)) w) = None
  /\ isRunning (ticks rnd (2 * S (String.length rest)) w) = false.
Proof.
  induction rest as [|c rest IH]; intros w j v i ch Hf Hp Hq.
  - change (2 * S (String.length ""))%nat with 2%nat. rewrite !ticks_S.
    rewrite (tick_eq rnd w _ _ _ _ Hf eq_refl).
    match goal with
    | |- context [tick rnd ?x] => set (w1 := x)
    end.
    assert (E : resumeKont rnd w1 (mkFrame j v (KCharWait i ch ""))
                = ([Ev (ProgressChar j i ch)], S (draws w), None)).
    { unfold resumeKont. cbn [fkont fjob].
      change (isPaused w1) with (isPaused w). rewrite Hp. reflexivity. }
    rewrite (tick_eq rnd w1 _ _ _ _ eq_refl E).
    unfold jobFinished. change (queue (set_draws (S (draws w))
                                          (record [Ev (ProgressChar j i ch)] w1)))
                          with (queue w).
    rewrite Hq. cbn. rewrite <- !app_assoc. now repeat split.
  - replace (2 * S (String.length (String c rest)))%nat
      with (S (S (2 * S (String.length rest)))) by (cbn [String.length]; lia).
    rewrite !ticks_S.
    rewrite (tick_eq rnd w _ _ _ _ Hf eq_refl).
    match goal with
    | |- context [tick rnd ?x] => set (w1 := x)
    end.
    assert (E : resumeKont rnd w1 (mkFrame j v (KCharWait i ch (String c rest)))
                = ([Ev (ProgressChar j i ch); SendBatch (char_instr c)],
                   S (draws w), Some (KCharSend (S i) c rest))).
    { unfold resumeKont. cbn [fkont fjob].
      change (isPaused w1) with (isPaused w). rewrite Hp. reflexivity. }
    rewrite (tick_eq rnd w1 _ _ _ _ eq_refl E).
    match goal with
    | |- context [ticks rnd _ ?x] =>
        destruct (IH x j v (S i) c) as (Ht & Hn & Hr);
        [reflexivity | exact Hp | exact Hq |]
    end.
    rewrite Ht, Hn, Hr. split; [|now split].
    cbn. rewrite <- !app_assoc. reflexivity.
Qed.

End Settings.

(** X9: changing the rate or the mode while a job is in flight changes
    nothing of that job: with nothing else queued, the trace after any
    number of resolutions is the same with and without the
    [setWpm]/[setBatchMode] call ([_runJob] reads both once, at its
    start). *)
Theorem settings_do_not_reach_the_job_in_flight (rnd : nat -> Q)
    (w : TypingSimulator) (v : jsnum) (b : bool) (n : nat) :
  queue w = [] ->
  trace (ticks rnd n (setWpm v w)) = trace (ticks rnd n w)
  /\ trace (ticks rnd n (setBatchMode b w)) = trace (ticks rnd n w).
Proof.
  intros Hq. unfold setWpm, setBatchMode.
  rewrite ticks_set_wpm, ticks_set_batchMode by exact Hq.
  split; reflexivity.
Qed.

Lemma settings_do_not_reach_the_job_in_flight_witness :
  queue two_sent = []
  /\ trace (ticks half 80 (setWpm (Num 300) two_sent)) = trace (ticks half 80 two_sent)
  /\ trace (ticks half 80 (setBatchMode false two_sent))
     = trace (ticks half 80 two_sent).
Proof.
  split; [reflexivity|].
  exact (settings_do_not_reach_the_job_in_flight half two_sent (Num 300) false 80
           eq_refl).
Defined.

(** X10: in char-by-char mode a non-empty text enqueued on an idle
    engine and run without interruption gives, for each character in
    order, one instruction (ENTER for a newline, TAB for a tab, else the
    character itself), then the paced wait for one character with no
    extra pause, then the progress event with the index and the
    character; [job-done] and [idle] end the run. *)
Theorem char_mode_run_is_character_by_character (rnd : nat -> Q)
    (w : TypingSimulator) (a : ascii) (s : string) (d : option Z)
    (m : option meta) :
  isRunning w = false -> isPaused w = false -> queue w = [] ->
  let j := mkJob (String a s) (if_defined d (defaultDelay w))
                 (if_defined m empty_meta) in
  useBatch w j = false ->
  trace (ticks rnd (2 * String.length (String a s))
           (snd (enqueueText rnd (TStr (String a s)) d m w)))
  = (trace w ++ [Ev (Queued j); Ev Started]
       ++ char_script rnd j (job_wpm w j) 0 (draws w) (String a s)
       ++ [Ev (JobDone j); Ev Idle])%list.
Proof.
  intros Hr Hp Hq j Hb.
  cbn [enqueueText falsy snd text_string]. fold j.
  unfold ensureRunning.
  cbn [isRunning isPaused emit record set_trace set_queue queue].
  rewrite Hr, Hp, Hq. cbn [orb app whileLoop].
  match goal with
  | |- context [if isPaused ?x then _ else _] =>
      change (isPaused x) with (isPaused w)
  end.
  rewrite Hp. unfold runJob.
  match goal with
  | |- context [useBatch ?x j] => change (useBatch x j) with (useBatch w j)
  end.
  rewrite Hb. cbn [text j]. 
  match goal with
  | |- context [charLoop (isPaused ?x) _ _ _] =>
      change (isPaused x) with (isPaused w)
  end.
  rewrite Hp. cbn [charLoop].
  change (2 * String.length (String a s))%nat with (2 * S (String.length s))%nat.
  match goal with
  | |- context [ticks rnd _ ?x] =>
      destruct (char_run rnd s x j (job_wpm w j) 0%nat a) as (Ht & _);
      [reflexivity | exact Hp | reflexivity |]
  end.
  rewrite Ht. cbn. rewrite <- !app_assoc. reflexivity.
Qed.

Lemma char_mode_run_is_character_by_character_witness :
  let w := setBatchMode false fresh in
  isRunning w = false /\ isPaused w = false /\ queue w = []
  /\ useBatch w (mkJob hi_text 0 empty_meta) = false
  /\ trace (ticks half (2 * String.length hi_text)
              (snd (enqueueText half (TStr hi_text) None None w)))
     = (trace w ++ [Ev (Queued (mkJob hi_text 0 empty_meta)); Ev Started]
          ++ char_script half (mkJob hi_text 0 empty_meta)
               (job_wpm w (mkJob hi_text 0 empty_meta)) 0 (draws w) hi_text
          ++ [Ev (JobDone (mkJob hi_text 0 empty_meta)); Ev Idle])%list.
Proof.
  intros w. repeat (split; [reflexivity|]).
  exact (char_mode_run_is_character_by_character half w "H"%char
           ("i." ++ String newline "")%string None None
           eq_refl eq_refl eq_refl eq_refl).
Defined.

(** ** The shape of the literal payloads *)

Section Shape.

Variable rnd : nat -> Q.

Lemma no_controls_snoc b a :
  no_controls (b ++ String a "")
  = no_controls b && negb (Ascii.eqb a newline || Ascii.eqb a tab).
Proof.
  induction b as [|c b IH]; cbn; [now rewrite andb_true_r|].
  now rewrite IH, andb_assoc.
Qed.

Lemma no_punct_snoc b a :
  no_punct (b ++ String a "") = no_punct b && negb (isPunct a).
Proof.
  induction b as [|c b IH]; cbn [append no_punct]; [now rewrite andb_true_r|].
  now rewrite IH, andb_assoc.
Qed.

Lemma punct_only_last_snoc b a :
  no_punct b = true -> punct_only_last (b ++ String a "") = true.
Proof.
  induction b as [|c b IH]; [reflexivity|].
  cbn [append no_punct punct_only_last]. intros H.
  apply andb_true_iff in H. destruct H as [Hc Hb].
  destruct (b ++ String a "") eqn:E; [reflexivity|].
  rewrite Hc. cbn [andb]. now apply IH.
Qed.

Lemma no_punct_only_last b : no_punct b = true -> punct_only_last b = true.
Proof.
  induction b as [|c b IH]; [reflexivity|].
  cbn [no_punct punct_only_last]. intros H.
  apply andb_true_iff in H. destruct H as [Hc Hb].
  destruct b; [reflexivity|]. rewrite Hc. cbn [andb]. now apply IH.
Qed.

Lemma batchLoop_well_cut paused maxB minB str : forall batch n o n' k,
  no_controls batch = true -> no_punct batch = true ->
  batchLoop rnd paused maxB minB str batch n = (o, n', k) ->
  Forall well_cut (sends o).
Proof.
  assert (Hflush : forall batch n o n' k,
             no_controls batch = true -> no_punct batch = true ->
             afterLoop batch n = (o, n', k) -> Forall well_cut (sends o)).
  { intros batch n o n' k Hc Hp H. unfold afterLoop, flushBatch in H.
    destruct batch; inversion H; subst; cbn [sends]; repeat constructor; auto.
    now apply no_punct_only_last. }
  destruct paused.
  { intros batch n o n' k Hc Hp. rewrite batchLoop_paused. eauto. }
  induction str as [|a rest IH]; intros batch n o n' k Hc Hp H.
  - cbn [batchLoop] in H. eauto.
  - revert H. cbn [batchLoop].
    destruct (Ascii.eqb a newline) eqn:E1.
    { unfold flushBatch, sendToken. destruct batch; intros H; inversion H; subst;
        cbn [sends]; repeat constructor; auto. now apply no_punct_only_last. }
    destruct (Ascii.eqb a tab) eqn:E2.
    { unfold flushBatch, sendToken. destruct batch; intros H; inversion H; subst;
        cbn [sends]; repeat constructor; auto. now apply no_punct_only_last. }
    rewrite ?flushBatch_snoc.
    assert (Hc' : no_controls (batch ++ String a "") = true)
      by (rewrite no_controls_snoc, Hc, E1, E2; reflexivity).
    assert (Hl' : punct_only_last (batch ++ String a "") = true)
      by now apply punct_only_last_snoc.
    destruct (isPunct a) eqn:Ep; cbn [orb].
    { intros H; inversion H; subst; cbn [sends]; repeat constructor; auto. }
    assert (Hp' : no_punct (batch ++ String a "") = true)
      by (rewrite no_punct_snoc, Hp, Ep; reflexivity).
    destruct (str_len (batch ++ String a "") >=? maxB).
    { intros H; inversion H; subst; cbn [sends]; repeat constructor; auto. }
    destruct (str_len (batch ++ String a "") >=? minB).
    + destruct (randomFlush rnd n).
      { intros H; inversion H; subst; cbn [sends]; repeat constructor; auto. }
      intros H. eapply IH; eauto.
    + intros H. eapply IH; eauto.
Qed.

Lemma charLoop_well_cut paused i str n o n' k :
  charLoop paused i str n = (o, n', k) -> Forall well_cut (sends o).
Proof.
  destruct str as [|a rest], paused; cbn [charLoop]; intros H; inversion H;
    subst; cbn [sends]; repeat constructor.
  destruct (Ascii.eqb a newline) eqn:E1; [exact I|].
  destruct (Ascii.eqb a tab) eqn:E2; [exact I|].
  cbn. rewrite E1, E2. now split.
Qed.

Lemma runJob_well_cut w j o n k :
  runJob rnd w j = (o, n, k) -> Forall well_cut (sends o).
Proof.
  unfold runJob. destruct (useBatch w j).
  - now apply batchLoop_well_cut.
  - apply charLoop_well_cut.
Qed.

Lemma resumeKont_well_cut w f o n k :
  resumeKont rnd w f = (o, n, k) -> Forall well_cut (sends o).
Proof.
  unfold resumeKont.
  destruct (fkont f) as [batch extra af|af|tk rest|rest|i ch rest|i ch rest].
  - intros H; inversion H; subst. constructor.
  - destruct af as [tk rest|rest|]; cbn [afterFlush].
    + intros H; inversion H; subst. cbn. repeat constructor.
    + now apply batchLoop_well_cut.
    + intros H; inversion H; subst. constructor.
  - intros H; inversion H; subst. constructor.
  - now apply batchLoop_well_cut.
  - intros H; inversion H; subst. constructor.
  - destruct (charLoop (isPaused w) (S i) rest (draws w)) as [[o1 n1] k1] eqn:E.
    intros H; inversion H; subst. cbn [sends].
    eapply charLoop_well_cut; eauto.
Qed.

(** A property of instructions that every stretch of [_runJob] keeps
    holds of everything sent in any run. *)
Lemma run_sends_forall (P : instr -> Prop) :
  (forall w j o n k, runJob rnd w j = (o, n, k) -> Forall P (sends o)) ->
  (forall w f o n k, resumeKont rnd w f = (o, n, k) -> Forall P (sends o)) ->
  forall sched w,
    Forall P (sends (trace w)) -> Forall P (sends (trace (run rnd sched w))).
Proof.
  intros Hjob Hres.
  assert (Hloop : forall q w, Forall P (sends (trace w)) ->
                              Forall P (sends (trace (whileLoop rnd q w)))).
  { apply (whileLoop_cases rnd
             (fun q w w' => Forall P (sends (trace w)) ->
                            Forall P (sends (trace w')))).
    - intros q w _ H. cbn. rewrite sends_app. cbn. now rewrite app_nil_r.
    - intros j q' w o n k' _ E H. cbn. rewrite sends_app.
      apply Forall_app. split; [exact H | eapply Hjob; eauto].
    - intros j q' w o n w2 _ E -> IH H. apply IH. cbn.
      rewrite !sends_app. cbn. rewrite app_nil_r.
      apply Forall_app. split; [exact H | eapply Hjob; eauto]. }
  assert (Hens : forall w, Forall P (sends (trace w)) ->
                           Forall P (sends (trace (ensureRunning rnd w)))).
  { intros w H. unfold ensureRunning.
    destruct (isRunning w || isPaused w); [exact H|].
    apply Hloop. cbn. rewrite sends_app. cbn. now rewrite app_nil_r. }
  assert (Hemit : forall e w, Forall P (sends (trace w)) ->
                              Forall P (sends (trace (emit e w)))).
  { intros e w H. cbn. rewrite sends_app. cbn. now rewrite app_nil_r. }
  induction sched as [|i sched IH]; intros w H; [exact H|].
  cbn [run fold_left]. fold (run rnd sched (step rnd w i)). apply IH.
  destruct i as [|t d m| | | |n|b]; cbn [step].
  - unfold tick. destruct (runner w) as [f|]; [|exact H].
    destruct (resumeKont rnd w f) as [[o n] k] eqn:E.
    assert (H1 : Forall P (sends (trace (set_draws n (record o w))))).
    { cbn. rewrite sends_app. apply Forall_app. split; [exact H | eapply Hres; eauto]. }
    destruct k as [k'|]; [exact H1|].
    unfold jobFinished. apply Hloop. now apply Hemit.
  - unfold enqueueText. destruct (falsy t); [exact H|]. cbn [snd].
    apply Hens. now apply Hemit.
  - now apply Hemit.
  - unfold resume. destruct (isPaused w); cbn [negb]; [|exact H].
    apply Hens. now apply Hemit.
  - now apply Hemit.
  - exact H.
  - exact H.
Qed.

End Shape.

(** X11: whatever is enqueued and whatever is called, in batch mode and
    in char-by-char mode alike, no literal payload handed to
    [_sendBatch] holds a newline or a tab, and a punctuation character
    (one of [. ! ? , ; :]) is always the last character of its payload:
    a batch ends right after punctuation. *)
Theorem literal_payloads_are_well_cut (rnd : nat -> Q) (o : options)
    (sched : list input) :
  Forall well_cut (sends (trace (run rnd sched (new_TypingSimulator o)))).
Proof.
  apply run_sends_forall.
  - apply runJob_well_cut.
  - apply resumeKont_well_cut.
  - constructor.
Qed.

(** ** The waits and the progress events *)

Section Timing.

Variable rnd : nat -> Q.

Lemma paced_waits_app (t u : list obs) :
  paced_waits (t ++ u) = (paced_waits t ++ paced_waits u)%list.
Proof.
  induction t as [|x t IH]; cbn; [reflexivity|].
  destruct x as [e|i|[v n q e|ms]]; cbn; now rewrite IH.
Qed.

Lemma reported_waits_app (t u : list obs) :
  reported_waits (t ++ u) = (reported_waits t ++ reported_waits u)%list.
Proof.
  induction t as [|x t IH]; cbn; [reflexivity|].
  destruct x as [e|i|d]; try destruct e; cbn; now rewrite IH.
Qed.

Lemma paced_wpms_app (t u : list obs) :
  paced_wpms (t ++ u) = (paced_wpms t ++ paced_wpms u)%list.
Proof.
  induction t as [|x t IH]; cbn; [reflexivity|].
  destruct x as [e|i|[v n q e|ms]]; cbn; now rewrite IH.
Qed.

Lemma sends_have_no_waits (l : list instr) :
  paced_waits (map SendBatch l) = []
  /\ reported_waits (map SendBatch l) = []
  /\ paced_wpms (map SendBatch l) = [].
Proof. induction l as [|i l IH]; cbn; auto. Qed.

Lemma last_char_snoc b a : last_char (b ++ String a "") = Some a.
Proof.
  induction b as [|c b IH]; [reflexivity|].
  cbn [append last_char]. destruct (b ++ String a "") eqn:E; [|exact IH].
  now destruct b.
Qed.

Lemma extra_for_snoc b a :
  extra_for (b ++ String a "") = if isStop a then 260 else 0.
Proof. unfold extra_for. now rewrite last_char_snoc. Qed.

Lemma isStop_isPunct a : isPunct a = false -> isStop a = false.
Proof.
  unfold isPunct, isStop. intros H.
  destruct (Ascii.eqb a "."); [discriminate|].
  destruct (Ascii.eqb a "!"); [discriminate|].
  destruct (Ascii.eqb a "?"); [discriminate|]. reflexivity.
Qed.

Lemma or_default_nonzero x d : d <> 0 -> or_default x d <> 0.
Proof.
  intros Hd. unfold or_default. destruct x as [v|]; [|exact Hd].
  destruct (Z.eqb_spec v 0); assumption.
Qed.

(** The suspension point a stretch of the batch loop ends at carries the
    extra pause that goes with its batch, when the buffer it started
    from ends with no sentence punctuation; it is no char-by-char wait. *)
Lemma batchLoop_flush_ok paused maxB minB str : forall batch n o n' k,
  extra_for batch = 0 ->
  batchLoop rnd paused maxB minB str batch n = (o, n', Some k) ->
  flush_ok k /\ awaited_kont k = [].
Proof.
  assert (Hflush : forall batch n o n' k,
             extra_for batch = 0 ->
             afterLoop batch n = (o, n', Some k) ->
             flush_ok k /\ awaited_kont k = []).
  { intros batch n o n' k He H. unfold afterLoop, flushBatch in H.
    destruct batch; inversion H; subst. cbn. now split. }
  destruct paused.
  { intros batch n o n' k He. rewrite batchLoop_paused. eauto. }
  induction str as [|a rest IH]; intros batch n o n' k He H.
  - cbn [batchLoop] in H. eauto.
  - revert H. cbn [batchLoop].
    destruct (Ascii.eqb a newline) eqn:E1.
    { unfold flushBatch, sendToken. destruct batch; intros H; inversion H; subst;
        cbn; now split. }
    destruct (Ascii.eqb a tab) eqn:E2.
    { unfold flushBatch, sendToken. destruct batch; intros H; inversion H; subst;
        cbn; now split. }
    rewrite ?flushBatch_snoc.
    pose proof (extra_for_snoc batch a) as Hx.
    destruct (isPunct a) eqn:Ep; cbn [orb].
    { intros H; inversion H; subst. cbn [flush_ok awaited_kont]. now split. }
    rewrite (isStop_isPunct a Ep) in Hx |- *.
    destruct (str_len (batch ++ String a "") >=? maxB).
    { intros H; inversion H; subst. cbn [flush_ok awaited_kont]. now split. }
    destruct (str_len (batch ++ String a "") >=? minB).
    + destruct (randomFlush rnd n).
      { intros H; inversion H; subst. cbn [flush_ok awaited_kont]. now split. }
      intros H. eapply IH; eauto.
    + intros H. eapply IH; eauto.
Qed.

Lemma runJob_flush_ok w j o n k :
  runJob rnd w j = (o, n, Some k) -> flush_ok k /\ awaited_kont k = [].
Proof.
  unfold runJob. destruct (useBatch w j).
  - now apply batchLoop_flush_ok.
  - destruct (text j), (isPaused w); cbn [charLoop]; intros H; inversion H.
    cbn. now split.
Qed.

(** One resolution: the waits it sets are those its progress events
    account for, up to the wait of a character still to be reported. *)
Lemma resumeKont_timing w f o n k :
  flush_ok (fkont f) ->
  resumeKont rnd w f = (o, n, k) ->
  (awaited_kont (fkont f) ++ paced_waits o)%list
  = (reported_waits o ++ match k with Some k' => awaited_kont k' | None => [] end)%list
  /\ (forall k', k = Some k' -> flush_ok k')
  /\ Forall (fun v => v = fwpm f) (paced_wpms o).
Proof.
  intros Hok. unfold resumeKont.
  destruct (fkont f) as [batch extra af|af|tk rest|rest|i ch rest|i ch rest].
  - intros H; inversion H; subst. cbn in Hok |- *. subst extra.
    repeat split; auto. intros k' Hk; inversion Hk; exact I.
  - destruct af as [tk rest|rest|]; cbn [afterFlush].
    + intros H; inversion H; subst. cbn. repeat split; auto.
      intros k' Hk; inversion Hk; exact I.
    + intros H. pose proof (batchLoop_sends _ _ _ _ _ _ _ _ _ _ H) as Ho.
      destruct (sends_have_no_waits (sends o)) as (S1 & S2 & S3).
      rewrite Ho, S1, S2, S3. cbn [awaited_kont app].
      destruct k as [k'|].
      * destruct (batchLoop_flush_ok _ _ _ _ ""%string _ _ _ _ eq_refl H) as [F A].
        rewrite A. repeat split; auto. intros k0 Hk; now inversion Hk; subst.
      * repeat split; auto. discriminate.
    + intros H; inversion H; subst. cbn. repeat split; auto. discriminate.
  - intros H; inversion H; subst. cbn. repeat split; auto.
    intros k' Hk; inversion Hk; exact I.
  - intros H. pose proof (batchLoop_sends _ _ _ _ _ _ _ _ _ _ H) as Ho.
    destruct (sends_have_no_waits (sends o)) as (S1 & S2 & S3).
    rewrite Ho, S1, S2, S3. cbn [awaited_kont app].
    destruct k as [k'|].
    * destruct (batchLoop_flush_ok _ _ _ _ ""%string _ _ _ _ eq_refl H) as [F A].
      rewrite A. repeat split; auto. intros k0 Hk; now inversion Hk; subst.
    * repeat split; auto. discriminate.
  - intros H; inversion H; subst. cbn. repeat split; auto.
    intros k' Hk; inversion Hk; exact I.
  - destruct rest as [|c rest], (isPaused w); cbn [charLoop];
      intros H; inversion H; subst; cbn; repeat split; auto; try discriminate;
      intros k' Hk; inversion Hk; exact I.
Qed.

Ltac t_split := split; [|split; [|split]].

Ltac waits_simpl :=
  unfold awaited_report; cbn [runner trace exitLoop emit record set_trace
    set_runner set_isRunning set_queue set_draws set_currentJob set_isPaused
    fkont fwpm fjob];
  rewrite ?paced_waits_app, ?reported_waits_app, ?paced_wpms_app;
  cbn [paced_waits reported_waits paced_wpms];
  rewrite ?app_nil_r.

Lemma whileLoop_timing : forall q w,
  wpm w <> 0 ->
  paced_waits (trace w) = reported_waits (trace w) ->
  Forall (fun v => v <> 0) (paced_wpms (trace w)) ->
  timing_ok (whileLoop rnd q w).
Proof.
  apply (whileLoop_cases rnd
           (fun q w w' =>
              wpm w <> 0 ->
              paced_waits (trace w) = reported_waits (trace w) ->
              Forall (fun v => v <> 0) (paced_wpms (trace w)) ->
              timing_ok w')).
  - intros q w _ Hw Hpr Hnz. t_split.
    + waits_simpl. exact Hpr.
    + intros f H. cbn in H. discriminate.
    + exact Hw.
    + waits_simpl. exact Hnz.
  - intros j q' w o n k' _ E Hw Hpr Hnz.
    pose proof (runJob_sends _ _ _ _ _ _ E) as Ho.
    destruct (sends_have_no_waits (sends o)) as (S1 & S2 & S3).
    destruct (runJob_flush_ok _ _ _ _ _ E) as [F A].
    rewrite <- Ho in S1, S2, S3.
    t_split.
    + waits_simpl. rewrite A, S1, S2, !app_nil_r. exact Hpr.
    + intros f H. cbn in H. inversion H; subst. cbn [fkont fwpm]. split; [exact F|].
      now apply or_default_nonzero.
    + exact Hw.
    + waits_simpl. rewrite S3, app_nil_r. exact Hnz.
  - intros j q' w o n w2 _ E -> IH Hw Hpr Hnz.
    pose proof (runJob_sends _ _ _ _ _ _ E) as Ho.
    destruct (sends_have_no_waits (sends o)) as (S1 & S2 & S3).
    rewrite <- Ho in S1, S2, S3.
    apply IH.
    + exact Hw.
    + waits_simpl. rewrite S1, S2, !app_nil_r. exact Hpr.
    + waits_simpl. rewrite S3, !app_nil_r. exact Hnz.
Qed.

Lemma timing_ok_emit e w :
  (forall j b, e <> ProgressToken j b) -> (forall j i c, e <> ProgressChar j i c) ->
  timing_ok w -> timing_ok (emit e w).
Proof.
  intros H1 H2 (Hpr & Hf & Hw & Hnz).
  assert (E : reported_waits [Ev e] = []).
  { destruct e; try reflexivity;
      [now destruct (H1 j tok) | now destruct (H2 j index ch)]. }
  t_split.
  - unfold awaited_report in *. cbn [runner trace emit record set_trace].
    rewrite paced_waits_app, reported_waits_app, E, Hpr. cbn [paced_waits].
    now rewrite !app_nil_r.
  - exact Hf.
  - exact Hw.
  - cbn [trace emit record set_trace]. rewrite paced_wpms_app. cbn.
    now rewrite app_nil_r.
Qed.

Lemma ensureRunning_timing w :
  (isRunning w = false -> runner w = None) ->
  timing_ok w -> timing_ok (ensureRunning rnd w).
Proof.
  intros Ha Hok. unfold ensureRunning.
  destruct (isRunning w) eqn:Hr; cbn [orb]; [exact Hok|].
  destruct (isPaused w); [exact Hok|].
  destruct Hok as (Hpr & Hf & Hw & Hnz).
  unfold awaited_report in Hpr. rewrite (Ha eq_refl), app_nil_r in Hpr.
  apply whileLoop_timing.
  - exact Hw.
  - waits_simpl. exact Hpr.
  - waits_simpl. exact Hnz.
Qed.

Lemma tick_timing w : timing_ok w -> timing_ok (tick rnd w).
Proof.
  intros Hok. pose proof Hok as (Hpr & Hf & Hw & Hnz). unfold tick.
  destruct (runner w) as [f|] eqn:Ef; [|exact Hok].
  destruct (Hf f eq_refl) as [Hflush Hfw].
  destruct (resumeKont rnd w f) as [[o n] k] eqn:E.
  destruct (resumeKont_timing _ _ _ _ _ Hflush E) as (T1 & T2 & T3).
  unfold awaited_report in Hpr. rewrite Ef in Hpr.
  assert (Hnz' : Forall (fun v => v <> 0) (paced_wpms (trace w) ++ paced_wpms o)).
  { apply Forall_app. split; [exact Hnz|].
    eapply Forall_impl; [|exact T3]. intros v ->. exact Hfw. }
  destruct k as [k'|].
  - t_split.
    + waits_simpl. rewrite Hpr, <- !app_assoc, T1. reflexivity.
    + intros f0 H. cbn in H. inversion H; subst. cbn [fkont fwpm].
      split; [now apply T2 | exact Hfw].
    + exact Hw.
    + waits_simpl. exact Hnz'.
  - unfold jobFinished. apply whileLoop_timing.
    + exact Hw.
    + waits_simpl. rewrite Hpr, <- !app_assoc, T1. now rewrite !app_nil_r.
    + waits_simpl. exact Hnz'.
Qed.

Lemma step_timing w i :
  engine_ok w -> timing_ok w -> timing_ok (step rnd w i).
Proof.
  intros (Ha & _) Hok. pose proof Hok as (Hpr & Hf & Hw & Hnz).
  destruct i as [|t d m| | | |n|b]; cbn [step].
  - now apply tick_timing.
  - unfold enqueueText. destruct (falsy t); [exact Hok|]. cbn [snd].
    apply ensureRunning_timing; [exact Ha|].
    apply (timing_ok_emit (Queued _) (set_queue _ w)); try discriminate.
    exact Hok.
  - apply (timing_ok_emit PausedEv (set_isPaused true w)); try discriminate.
    exact Hok.
  - unfold resume. destruct (isPaused w); cbn [negb]; [|exact Hok].
    apply ensureRunning_timing; [exact Ha|].
    apply (timing_ok_emit Resumed (set_isPaused false w)); try discriminate.
    exact Hok.
  - apply (timing_ok_emit StoppedEv
             (set_currentJob None (set_isPaused false (set_queue [] w))));
      try discriminate.
    exact Hok.
  - t_split; auto. unfold setWpm. cbn. lia.
  - exact Hok.
Qed.

Lemma run_timing sched : forall w,
  engine_ok w -> timing_ok w -> timing_ok (run rnd sched w).
Proof.
  induction sched as [|i sched IH]; intros w He Hok; [exact Hok|].
  cbn [run fold_left]. fold (run rnd sched (step rnd w i)).
  apply IH; [now apply step_engine_ok | now apply step_timing].
Qed.

Lemma new_timing_ok o : timing_ok (new_TypingSimulator o).
Proof.
  t_split.
  - reflexivity.
  - intros f H. cbn in H. discriminate.
  - cbn. now apply or_default_nonzero.
  - constructor.
Qed.

End Timing.

(** X12: in every run the paced waits are, in order, those of the
    progress events: one wait per reported batch, for as many characters
    as the batch has and with the extra pause 260 exactly when the batch
    ends with one of [. ! ?] (else 0); one wait for one character and no
    extra pause per reported character; and nothing else but the wait of
    a character whose progress event is still to come. *)
Theorem paced_waits_match_the_progress_events (rnd : nat -> Q) (o : options)
    (sched : list input) :
  let w := run rnd sched (new_TypingSimulator o) in
  paced_waits (trace w) = (reported_waits (trace w) ++ awaited_report w)%list.
Proof.
  intros w.
  destruct (run_timing rnd sched _ (new_engine_ok o) (new_timing_ok o)) as (H & _).
  exact H.
Qed.

(** X13: no paced wait is ever computed from a rate of zero, whatever
    options, [setWpm] arguments and per-job rates are given: [0] always
    falls back to another rate, so [timePerChar] never divides by zero. *)
Theorem paced_waits_never_use_rate_zero (rnd : nat -> Q) (o : options)
    (sched : list input) :
  Forall (fun v => v <> 0)
         (paced_wpms (trace (run rnd sched (new_TypingSimulator o)))).
Proof.
  destruct (run_timing rnd sched _ (new_engine_ok o) (new_timing_ok o))
    as (_ & _ & _ & H).
  exact H.
Qed.

(** ** The length of a paced wait *)

Lemma baseWait_nonneg wpm avg n :
  0 < wpm -> 0 < avg -> (0 <= baseWait wpm avg n)%Q.
Proof.
  intros Hw Ha. unfold baseWait, timePerChar.
  apply Qmult_le_0_compat; [apply Qmult_le_0_compat|].
  - unfold Qdiv. apply Qmult_le_0_compat; [discriminate|].
    apply Qinv_le_0_compat. unfold Qle. cbn. nia.
  - unfold Qle. cbn. lia.
  - discriminate.
Qed.

(** X14: for a positive rate, a non-negative extra pause and a draw
    between 0 and 1, the paced wait (read over the rationals) is at
    least the base wait plus the extra pause and exceeds it by at most 8%
    of the base wait. *)
Theorem paced_wait_bounds (wpm avg : Z) (n : nat) (u : Q) (extra : Z) :
  0 < wpm -> 0 < avg -> 0 <= extra -> (0 <= u)%Q -> (u <= 1)%Q ->
  (baseWait wpm avg n + inject_Z extra <= wait_ms avg (Paced wpm n u extra))%Q
  /\ (wait_ms avg (Paced wpm n u extra)
      <= baseWait wpm avg n * (108 # 100) + inject_Z extra)%Q.
Proof.
  intros Hw Ha He Hu0 Hu1.
  pose proof (baseWait_nonneg wpm avg n Hw Ha) as Hb.
  assert (Hx : (0 <= inject_Z extra)%Q) by (unfold Qle; cbn; lia).
  cbn [wait_ms]. set (b := baseWait wpm avg n) in *.
  assert (Hub : (0 <= u * b)%Q) by (apply Qmult_le_0_compat; assumption).
  assert (Hub1 : (u * b <= b)%Q).
  { rewrite <- (Qmult_1_l b) at 2. apply Qmult_le_compat_r; assumption. }
  assert (Ht : (0 <= b + u * b * (8 # 100) + inject_Z extra)%Q) by lra.
  apply Qle_bool_iff in Ht. rewrite Ht. split; lra.
Qed.

Lemma paced_wait_bounds_witness :
  0 < 60 /\ 0 < 5 /\ 0 <= 260 /\ (0 <= 1 # 2)%Q /\ (1 # 2 <= 1)%Q
  /\ (baseWait 60 5 5 + inject_Z 260 <= wait_ms 5 (Paced 60 5 (1 # 2) 260))%Q
  /\ (wait_ms 5 (Paced 60 5 (1 # 2) 260)
      <= baseWait 60 5 5 * (108 # 100) + inject_Z 260)%Q.
Proof.
  assert (H1 : 0 < 60) by lia. assert (H2 : 0 < 5) by lia.
  assert (H3 : 0 <= 260) by lia.
  assert (H4 : (0 <= 1 # 2)%Q) by discriminate.
  assert (H5 : (1 # 2 <= 1)%Q) by discriminate.
  split; [exact H1|]. split; [exact H2|]. split; [exact H3|].
  split; [exact H4|]. split; [exact H5|].
  exact (paced_wait_bounds 60 5 5 (1 # 2) 260 H1 H2 H3 H4 H5).
Defined.

(** ** Escaping, continued *)

Lemma replaceAll_has_char c by_ s : has_char c s = false -> replaceAll c by_ s = s.
Proof.
  induction s as [|a s IH]; cbn; intros H; [reflexivity|].
  apply orb_false_iff in H. destruct H as [Ha Hs].
  rewrite Ha. f_equal. now apply IH.
Qed.

Lemma has_char_not_token s :
  has_char lbrace s = false ->
  (s =? "{ENTER}")%string || (s =? "{TAB}")%string = false.
Proof.
  intros H. apply orb_false_iff. split; apply String.eqb_neq; intros ->;
    discriminate.
Qed.

(** X15: [_sendBatch] leaves a batch without braces exactly as it is,
    and in a batch without an opening brace it wraps each closing brace
    once, as [{}}], and changes nothing else. *)
Theorem sendkeys_payload_without_open_brace (s : string) :
  has_char lbrace s = false ->
  sendkeys_payload s = replaceAll rbrace "{}}" s
  /\ (has_char rbrace s = false -> sendkeys_payload s = s).
Proof.
  intros H. unfold sendkeys_payload.
  rewrite (has_char_not_token s H), (replaceAll_has_char lbrace) by exact H.
  split; [reflexivity|]. intros Hr. now apply replaceAll_has_char.
Qed.

Lemma sendkeys_payload_without_open_brace_witness :
  has_char lbrace "f(x) }" = false
  /\ sendkeys_payload "f(x) }" = replaceAll rbrace "{}}" "f(x) }"
  /\ (has_char rbrace "f(x) }" = false -> sendkeys_payload "f(x) }" = "f(x) }").
Proof.
  split; [reflexivity|].
  exact (sendkeys_payload_without_open_brace "f(x) }" eq_refl).
Defined.

(** X16: whatever the payload, the text put between the quotes of the
    PowerShell literal has its single quotes in adjacent pairs, so none
    of them can close the literal early.  The same replacement is used by
    [_sendBatch] and by the [sendBatch] of [simulateTypeCharByChar]. *)
Theorem escaped_quotes_are_paired (payload : string) :
  quotes_paired (ps_escape payload) = true.
Proof.
  unfold ps_escape. induction payload as [|a s IH]; [reflexivity|].
  cbn [replaceAll]. destruct (Ascii.eqb a squote) eqn:E.
  - cbn. exact IH.
  - cbn [quotes_paired]. rewrite E. exact IH.
Qed.

(** X17: for a non-empty batch without braces, [_sendBatch] of the
    engine and the [sendBatch] of [simulateTypeCharByChar] run the very
    same command. *)
Theorem both_senders_build_the_same_command (a : ascii) (s : string) :
  has_char lbrace (String a s) = false ->
  has_char rbrace (String a s) = false ->
  sendBatch_command (String a s) = Some (type_command (String a s)).
Proof.
  intros Hl Hr. unfold sendBatch_command, type_command, psCmd, ps_escape.
  destruct (sendkeys_payload_without_open_brace (String a s) Hl) as [_ H].
  rewrite (H Hr). reflexivity.
Qed.

Lemma both_senders_build_the_same_command_witness :
  has_char lbrace "Hello, it's me" = false
  /\ has_char rbrace "Hello, it's me" = false
  /\ sendBatch_command "Hello, it's me" = Some (type_command "Hello, it's me").
Proof.
  repeat (split; [reflexivity|]).
  exact (both_senders_build_the_same_command "H" "ello, it's me" eq_refl eq_refl).
Defined.

(** ** Empty payloads *)

Section NonEmpty.

Variable rnd : nat -> Q.

Lemma batchLoop_nonempty paused maxB minB str : forall batch n o n' k,
  batchLoop rnd paused maxB minB str batch n = (o, n', k) ->
  Forall (fun i => instr_arg i <> "") (sends o).
Proof.
  assert (Hflush : forall batch n o n' k,
             afterLoop batch n = (o, n', k) ->
             Forall (fun i => instr_arg i <> "") (sends o)).
  { intros batch n o n' k H. unfold afterLoop, flushBatch in H.
    destruct batch; inversion H; subst; cbn [sends]; repeat constructor.
    discriminate. }
  destruct paused.
  { intros batch n o n' k. rewrite batchLoop_paused. eauto. }
  induction str as [|a rest IH]; intros batch n o n' k H.
  - cbn [batchLoop] in H. eauto.
  - revert H. cbn [batchLoop].
    destruct (Ascii.eqb a newline).
    { unfold flushBatch, sendToken. destruct batch; intros H; inversion H; subst;
        cbn [sends]; repeat constructor; discriminate. }
    destruct (Ascii.eqb a tab).
    { unfold flushBatch, sendToken. destruct batch; intros H; inversion H; subst;
        cbn [sends]; repeat constructor; discriminate. }
    rewrite ?flushBatch_snoc.
    destruct (isPunct a || (str_len (batch ++ String a "") >=? maxB)).
    { intros H; inversion H; subst; cbn [sends]; repeat constructor.
      apply snoc_not_empty. }
    destruct (str_len (batch ++ String a "") >=? minB).
    + destruct (randomFlush rnd n).
      { intros H; inversion H; subst; cbn [sends]; repeat constructor.
        apply snoc_not_empty. }
      intros H. eapply IH; eauto.
    + intros H. eapply IH; eauto.
Qed.

Lemma charLoop_nonempty paused i str n o n' k :
  charLoop paused i str n = (o, n', k) ->
  Forall (fun i => instr_arg i <> "") (sends o).
Proof.
  destruct str as [|a rest], paused; cbn [charLoop]; intros H; inversion H;
    subst; cbn [sends]; repeat constructor.
  destruct (Ascii.eqb a newline); [discriminate|].
  destruct (Ascii.eqb a tab); discriminate.
Qed.

Lemma runJob_nonempty w j o n k :
  runJob rnd w j = (o, n, k) -> Forall (fun i => instr_arg i <> "") (sends o).
Proof.
  unfold runJob. destruct (useBatch w j).
  - apply batchLoop_nonempty.
  - apply charLoop_nonempty.
Qed.

Lemma resumeKont_nonempty w f o n k :
  resumeKont rnd w f = (o, n, k) -> Forall (fun i => instr_arg i <> "") (sends o).
Proof.
  unfold resumeKont.
  destruct (fkont f) as [batch extra af|af|tk rest|rest|i ch rest|i ch rest].
  - intros H; inversion H; subst. constructor.
  - destruct af as [tk rest|rest|]; cbn [afterFlush].
    + intros H; inversion H; subst. cbn. repeat constructor.
      destruct tk; discriminate.
    + apply batchLoop_nonempty.
    + intros H; inversion H; subst. constructor.
  - intros H; inversion H; subst. constructor.
  - apply batchLoop_nonempty.
  - intros H; inversion H; subst. constructor.
  - destruct (charLoop (isPaused w) (S i) rest (draws w)) as [[o1 n1] k1] eqn:E.
    intros H; inversion H; subst. cbn [sends].
    eapply charLoop_nonempty; eauto.
Qed.

End NonEmpty.

(** X18: the engine never hands an empty string to [_sendBatch],
    whatever is enqueued and whatever is called: every instruction runs
    a SendKeys command. *)
Theorem no_empty_payload_is_sent (rnd : nat -> Q) (o : options)
    (sched : list input) :
  Forall (fun i => sendBatch_command (instr_arg i) <> None)
         (sends (trace (run rnd sched (new_TypingSimulator o)))).
Proof.
  eapply Forall_impl;
    [|apply (run_sends_forall rnd (fun i => instr_arg i <> ""));
      [apply runJob_nonempty | apply resumeKont_nonempty | constructor]].
  intros i Hi. cbn beta in Hi. unfold sendBatch_command.
  destruct (instr_arg i); [congruence | discriminate].
Qed.

(** ** simulateTypeCharByChar *)

Section TypeLoop.

Variable rnd : nat -> Q.

Lemma type_sends_app (t u : list type_obs) :
  type_sends (t ++ u) = (type_sends t ++ type_sends u)%list.
Proof.
  induction t as [|x t IH]; cbn; [reflexivity|]. destruct x; cbn; now rewrite IH.
Qed.

Lemma type_waits_app (t u : list type_obs) :
  type_waits (t ++ u) = (type_waits t ++ type_waits u)%list.
Proof.
  induction t as [|x t IH]; cbn; [reflexivity|]. destruct x; cbn; now rewrite IH.
Qed.

Lemma type_wait_sends delayMs n : type_sends (type_wait rnd delayMs n) = [].
Proof. unfold type_wait. now destruct (Qle_bool _ 0). Qed.

Lemma typeLoop_text delayMs batchSize str : forall batch n,
  concat_str (map instr_text (type_sends (typeLoop rnd delayMs batchSize str batch n)))
  = batch ++ str.
Proof.
  induction str as [|a rest IH]; intros batch n.
  - cbn [typeLoop]. rewrite append_nil_r.
    destruct batch; [reflexivity|]. cbn. now rewrite append_nil_r.
  - cbn [typeLoop].
    destruct (Ascii.eqb a newline) eqn:E1.
    { apply Ascii.eqb_eq in E1. subst a.
      cbn [app type_sends]. rewrite type_sends_app, type_wait_sends.
      cbn [app map concat_str instr_text token_char]. rewrite IH. reflexivity. }
    destruct (Ascii.eqb a tab) eqn:E2.
    { apply Ascii.eqb_eq in E2. subst a.
      cbn [app type_sends]. rewrite type_sends_app, type_wait_sends.
      cbn [app map concat_str instr_text token_char]. rewrite IH. reflexivity. }
    cbn zeta. destruct (str_len (batch ++ String a "") >=? batchSize).
    + cbn [app type_sends]. rewrite type_sends_app, type_wait_sends.
      cbn [app map concat_str instr_text]. rewrite IH.
      now rewrite append_snoc.
    + rewrite type_sends_app, type_wait_sends. cbn [app]. rewrite IH.
      now rewrite append_snoc.
Qed.

Lemma typeLoop_within delayMs batchSize str : forall batch n,
  str_len batch < Z.max 1 batchSize ->
  Forall (within (Z.max 1 batchSize))
         (type_sends (typeLoop rnd delayMs batchSize str batch n)).
Proof.
  induction str as [|a rest IH]; intros batch n Hb.
  - cbn [typeLoop]. destruct (0 <? str_len batch); cbn; repeat constructor.
    unfold within. lia.
  - assert (H0 : str_len "" < Z.max 1 batchSize) by (unfold str_len; cbn; lia).
    cbn [typeLoop].
    destruct (Ascii.eqb a newline).
    { cbn [app type_sends]. rewrite type_sends_app, type_wait_sends. cbn [app].
      constructor; [unfold within; lia|]. constructor; [exact I|]. now apply IH. }
    destruct (Ascii.eqb a tab).
    { cbn [app type_sends]. rewrite type_sends_app, type_wait_sends. cbn [app].
      constructor; [unfold within; lia|]. constructor; [exact I|]. now apply IH. }
    cbn zeta.
    assert (Hlen : str_len (batch ++ String a "") = str_len batch + 1)
      by (unfold str_len; rewrite length_append; cbn; lia).
    destruct (Z.geb_spec (str_len (batch ++ String a "")) batchSize) as [Hge|Hlt].
    + cbn [app type_sends]. rewrite type_sends_app, type_wait_sends. cbn [app].
      constructor; [unfold within; lia|]. now apply IH.
    + rewrite type_sends_app, type_wait_sends. cbn [app]. apply IH. lia.
Qed.

Lemma type_wait_waits delayMs n :
  0 < delayMs -> (0 <= rnd n)%Q ->
  type_waits (type_wait rnd delayMs n) = [humanLikeDelay rnd delayMs n].
Proof.
  intros Hd Hr. unfold type_wait.
  destruct (Qle_bool (humanLikeDelay rnd delayMs n) 0) eqn:E; [|reflexivity].
  apply Qle_bool_iff in E. unfold humanLikeDelay in E.
  assert (Hz : (0 < inject_Z delayMs)%Q) by (unfold Qlt; cbn; lia).
  lra.
Qed.

Lemma typeLoop_waits delayMs batchSize str : forall batch n,
  0 < delayMs -> (forall k, (0 <= rnd k)%Q) ->
  type_waits (typeLoop rnd delayMs batchSize str batch n)
  = map (humanLikeDelay rnd delayMs) (seq n (String.length str)).
Proof.
  induction str as [|a rest IH]; intros batch n Hd Hr.
  - cbn [typeLoop]. now destruct (0 <? str_len batch).
  - cbn [typeLoop String.length seq map].
    destruct (Ascii.eqb a newline).
    { cbn [app type_waits]. rewrite type_waits_app, type_wait_waits by auto.
      cbn [app]. now rewrite IH. }
    destruct (Ascii.eqb a tab).
    { cbn [app type_waits]. rewrite type_waits_app, type_wait_waits by auto.
      cbn [app]. now rewrite IH. }
    cbn zeta. destruct (str_len (batch ++ String a "") >=? batchSize).
    + cbn [app type_waits]. rewrite type_waits_app, type_wait_waits by auto.
      cbn [app]. now rewrite IH.
    + rewrite type_waits_app, type_wait_waits by auto. cbn [app]. now rewrite IH.
Qed.

Lemma typeLoop_counts delayMs batchSize str : forall batch n,
  List.length (type_sends (typeLoop rnd delayMs batchSize str batch n))
  = (List.length (literals (type_sends (typeLoop rnd delayMs batchSize str batch n)))
     + count_controls str)%nat
  /\ (count_controls str
      <= List.length (literals (type_sends (typeLoop rnd delayMs batchSize str batch n))))%nat.
Proof.
  induction str as [|a rest IH]; intros batch n.
  - cbn [typeLoop count_controls]. destruct (0 <? str_len batch); cbn; lia.
  - cbn [typeLoop count_controls].
    destruct (Ascii.eqb a newline) eqn:E1.
    { cbn [app type_sends orb]. rewrite type_sends_app, type_wait_sends.
      cbn [app literals List.length].
      destruct (IH "" (S n)) as [I1 I2]. rewrite I1. lia. }
    destruct (Ascii.eqb a tab) eqn:E2.
    { cbn [app type_sends orb]. rewrite type_sends_app, type_wait_sends.
      cbn [app literals List.length].
      destruct (IH "" (S n)) as [I1 I2]. rewrite I1. lia. }
    cbn zeta. cbn [orb Nat.add].
    destruct (str_len (batch ++ String a "") >=? batchSize).
    + cbn [app type_sends]. rewrite type_sends_app, type_wait_sends.
      cbn [app literals List.length].
      destruct (IH "" (S n)) as [I1 I2]. rewrite I1. lia.
    + rewrite type_sends_app, type_wait_sends. cbn [app]. apply IH.
Qed.

End TypeLoop.

(** X19: [simulateTypeCharByChar] always returns [true] and hands the
    whole text over in order: reading ENTER as a newline and TAB as a
    tab, the batches it sends spell [String(text ?? "")] exactly, for
    every delay, batch size and random source; for [null], [undefined]
    and the empty string it sends nothing and waits for nothing. *)
Theorem simulateTypeCharByChar_spells_the_text (rnd : nat -> Q) (t : text_arg)
    (delayMs batchSize : option Z) :
  fst (simulateTypeCharByChar rnd t delayMs batchSize) = true
  /\ concat_str (map instr_text
                   (type_sends (snd (simulateTypeCharByChar rnd t delayMs batchSize))))
     = type_str t
  /\ snd (simulateTypeCharByChar rnd TNull delayMs batchSize) = []
  /\ snd (simulateTypeCharByChar rnd TUndefined delayMs batchSize) = []
  /\ snd (simulateTypeCharByChar rnd (TStr "") delayMs batchSize) = [].
Proof.
  split; [reflexivity|]. split; [|repeat split].
  cbn [simulateTypeCharByChar snd]. now rewrite typeLoop_text.
Qed.

(** X20: no buffer that [simulateTypeCharByChar] sends is longer than
    the batch size; for a batch size below 1 every character goes out
    alone. *)
Theorem simulateTypeCharByChar_batches_are_bounded (rnd : nat -> Q)
    (t : text_arg) (delayMs batchSize : option Z) :
  Forall (within (Z.max 1 (if_defined batchSize 10)))
         (type_sends (snd (simulateTypeCharByChar rnd t delayMs batchSize))).
Proof.
  cbn [simulateTypeCharByChar snd]. apply typeLoop_within.
  unfold str_len. cbn. lia.
Qed.

(** X21: with a positive delay (1ms by default) and draws that are not
    negative, [simulateTypeCharByChar] waits once per character of the
    text, also after a character that only joined the buffer, and the
    wait after the [n]-th character is the delay plus five times the
    [n]-th draw. *)
Theorem simulateTypeCharByChar_waits_once_per_character (rnd : nat -> Q)
    (t : text_arg) (delayMs batchSize : option Z) :
  0 < if_defined delayMs 1 -> (forall k, (0 <= rnd k)%Q) ->
  type_waits (snd (simulateTypeCharByChar rnd t delayMs batchSize))
  = map (humanLikeDelay rnd (if_defined delayMs 1))
        (seq 0 (String.length (type_str t))).
Proof.
  intros Hd Hr. cbn [simulateTypeCharByChar snd]. now apply typeLoop_waits.
Qed.

Lemma simulateTypeCharByChar_waits_once_per_character_witness :
  0 < if_defined None 1 /\ (forall k, (0 <= half k)%Q)
  /\ type_waits (snd (simulateTypeCharByChar half (TStr hi_text) None None))
     = map (humanLikeDelay half (if_defined None 1))
           (seq 0 (String.length (type_str (TStr hi_text)))).
Proof.
  assert (H1 : 0 < if_defined None 1) by (cbn; lia).
  assert (H2 : forall k, (0 <= half k)%Q) by (intros k; discriminate).
  split; [exact H1|]. split; [exact H2|].
  exact (simulateTypeCharByChar_waits_once_per_character half (TStr hi_text)
           None None H1 H2).
Defined.

(** X22: unlike the engine, [simulateTypeCharByChar] sends its buffer
    at every newline and tab without looking whether it is empty: it
    makes one call with a token and at least one call with the buffer
    per newline or tab of the text, and for a text that starts with a
    newline the first command types the empty string, the second is
    ENTER. *)
Theorem simulateTypeCharByChar_sends_empty_buffer (rnd : nat -> Q)
    (t : text_arg) (rest : string) (delayMs batchSize : option Z) :
  let sent := type_sends (snd (simulateTypeCharByChar rnd t delayMs batchSize)) in
  List.length sent
  = (List.length (literals sent) + count_controls (type_str t))%nat
  /\ (count_controls (type_str t) <= List.length (literals sent))%nat
  /\ firstn 2 (type_sends (snd (simulateTypeCharByChar rnd
                                  (TStr (String newline rest)) delayMs batchSize)))
     = [Lit ""; Ctl ENTER].
Proof.
  cbn zeta. cbn [simulateTypeCharByChar snd].
  destruct (typeLoop_counts rnd (if_defined delayMs 1) (if_defined batchSize 10)
              (type_str t) "" 0) as [H1 H2].
  split; [exact H1|]. split; [exact H2 | reflexivity].
Qed.

(** ** Draining the queue *)

Section Drain.

Variable rnd : nat -> Q.

Lemma runJob_ticks w j o n k :
  runJob rnd w j = (o, n, Some k) -> (ticks_left k <= loop_ticks (text j))%nat.
Proof.
  unfold runJob. destruct (useBatch w j).
  - intros H. apply batchLoop_ticks in H. exact H.
  - destruct (text j) as [|a rest], (isPaused w); cbn [charLoop];
      intros H; inversion H; subst.
    unfold loop_ticks. cbn [ticks_left String.length]. unfold loop_ticks. lia.
Qed.

Lemma whileLoop_work_left : forall q w,
  isPaused w = false ->
  (work_left (whileLoop rnd q w) <= queue_ticks q)%nat
  /\ isPaused (whileLoop rnd q w) = false.
Proof.
  apply (whileLoop_cases rnd
           (fun q w w' =>
              isPaused w = false ->
              (work_left w' <= queue_ticks q)%nat /\ isPaused w' = false)).
  - intros q w [->|Hp] Hp'; [|congruence]. split; [|exact Hp'].
    unfold work_left. cbn. lia.
  - intros j q' w o n k' _ E Hp. split; [|exact Hp].
    apply runJob_ticks in E. unfold work_left.
    cbn [runner queue set_runner set_draws record set_trace set_currentJob
         set_queue fkont queue_ticks]. lia.
  - intros j q' w o n w2 _ E -> IH Hp.
    destruct (IH Hp) as [I1 I2]. split; [|exact I2]. cbn [queue_ticks]. lia.
Qed.

Lemma tick_work_left w f :
  runner w = Some f -> isPaused w = false ->
  (work_left (tick rnd w) < work_left w)%nat /\ isPaused (tick rnd w) = false.
Proof.
  intros Hf Hp.
  destruct (resumeKont rnd w f) as [[o n] k] eqn:E.
  destruct (resumeKont_text rnd _ _ _ _ _ Hp E) as (_ & _ & Hlt).
  rewrite (tick_eq rnd _ _ _ _ _ Hf E).
  unfold work_left at 2. rewrite Hf.
  destruct k as [k'|].
  - split; [|exact Hp]. unfold work_left.
    cbn [runner queue set_runner set_draws record set_trace fkont
         ticks_left_opt] in *. lia.
  - unfold jobFinished.
    match goal with
    | |- context [whileLoop rnd ?q ?x] =>
        destruct (whileLoop_work_left q x Hp) as [I1 I2]
    end.
    split; [|exact I2].
    cbn [queue set_draws record set_trace ticks_left_opt] in *.
    pose proof (ticks_left_pos (fkont f)). lia.
Qed.

Lemma drain n : forall w,
  isPaused w = false -> (work_left w <= n)%nat ->
  runner (ticks rnd n w) = None /\ isPaused (ticks rnd n w) = false.
Proof.
  induction n as [|n IH]; intros w Hp Hn.
  - cbn. split; [|exact Hp]. unfold work_left in Hn.
    destruct (runner w) as [f|]; [|reflexivity].
    pose proof (ticks_left_pos (fkont f)). lia.
  - destruct (runner w) as [f|] eqn:Ef.
    + rewrite ticks_S. destruct (tick_work_left w f Ef Hp) as [Hlt Hp'].
      apply IH; [exact Hp' | lia].
    + rewrite ticks_settled by exact Ef. now split.
Qed.

Lemma run_app (a b : list input) w : run rnd (a ++ b) w = run rnd b (run rnd a w).
Proof. unfold run. apply fold_left_app. Qed.

Lemma no_stop_app a b : no_stop (a ++ b) = no_stop a && no_stop b.
Proof. unfold no_stop. apply forallb_app. Qed.

Lemma no_stop_ticks n : no_stop (repeat Tick n) = true.
Proof. induction n; [reflexivity | exact IHn]. Qed.

End Drain.

(** X23: an engine that is not paused and is left to run drains its
    queue: after as many resolutions as [work_left] counts, no runner
    loop is active and the queue is empty; and when [stop()] has never
    been called, every job announced by [queued] has then been reported
    by [job-done], in the same order. *)
Theorem unpaused_engine_drains_its_queue (rnd : nat -> Q) (o : options)
    (sched : list input) (n : nat) :
  let w := run rnd sched (new_TypingSimulator o) in
  isPaused w = false -> (work_left w <= n)%nat ->
  isRunning (ticks rnd n w) = false
  /\ queue (ticks rnd n w) = []
  /\ (no_stop sched = true ->
      done_jobs (trace (ticks rnd n w)) = queued_jobs (trace (ticks rnd n w))).
Proof.
  intros w Hp Hn.
  destruct (drain rnd n w Hp Hn) as [Hnone Hp'].
  assert (E : ticks rnd n w = run rnd (sched ++ repeat Tick n) (new_TypingSimulator o)).
  { unfold ticks, w. now rewrite run_app. }
  pose proof (run_engine_ok rnd (sched ++ repeat Tick n) _ (new_engine_ok o))
    as (_ & Ha2 & Hb & _).
  rewrite <- E in Ha2, Hb.
  assert (Hr : isRunning (ticks rnd n w) = false) by now apply Ha2.
  split; [exact Hr|]. split; [now apply Hb|].
  intros Hs.
  assert (Hs' : no_stop (sched ++ repeat Tick n) = true)
    by (rewrite no_stop_app, Hs, no_stop_ticks; reflexivity).
  assert (Hf : fifo (new_TypingSimulator o)).
  { split; [reflexivity | intros H; now cbn in H]. }
  destruct (run_fifo rnd _ _ Hs' Hf) as [Hq _].
  rewrite <- E in Hq. rewrite Hq. unfold inflight.
  rewrite Hnone, (Hb Hr Hp'). cbn. now rewrite app_nil_r.
Qed.

Lemma unpaused_engine_drains_its_queue_witness :
  let w := run half three_jobs (new_TypingSimulator no_options) in
  isPaused w = false /\ (work_left w <= 60)%nat
  /\ isRunning (ticks half 60 w) = false
  /\ queue (ticks half 60 w) = []
  /\ (no_stop three_jobs = true ->
      done_jobs (trace (ticks half 60 w)) = queued_jobs (trace (ticks half 60 w))).
Proof.
  intros w.
  assert (H1 : isPaused w = false) by (vm_compute; reflexivity).
  assert (H2 : (work_left w <= 60)%nat) by (vm_compute; lia).
  split; [exact H1|]. split; [exact H2|].
  exact (unpaused_engine_drains_its_queue half no_options three_jobs 60 H1 H2).
Defined.

(** ** The order of jobs *)



